(** * eos::String (contracts/eoslib/string.hpp)

    A shallow embedding of the reference-counted byte string of eoslib and
    the properties of its substring, length, comparison and concatenation
    operations.

    The class manipulates raw memory, so the embedding threads an explicit
    memory through every method: byte blocks handed out by [malloc], and the
    [uint32_t] cells that hold the shared reference counters.  A method
    returns an [outcome]: a value, a failed eoslib [assert] (with its
    message), or a memory fault (an access that C++ leaves undefined). *)

From Stdlib Require Import ZArith Lia.
From Stdlib.Strings Require Import Byte.
From stdpp Require Import gmap list strings.

Open Scope Z_scope.

Module Eos.

(** ** Machine integers *)

(** [uint32_t] arithmetic: every result is reduced modulo 2^32. *)
Definition wrap32 (z : Z) : Z := z mod 2 ^ 32.

Definition is_uint32 (z : Z) : Prop := 0 <= z < 2 ^ 32.

(** The value of a byte read through [uint8_t]. *)
Definition uint8_of (c : byte) : Z := Z.of_N (Byte.to_N c).

(** ** Outcomes of a method call *)

Inductive outcome (A : Type) : Type :=
| Ok (a : A)
| Abort (msg : string)
| Fault.

Arguments Ok {A} a.
Arguments Abort {A} msg.
Arguments Fault {A}.

#[global] Instance outcome_ret : MRet outcome := fun A a => Ok a.
#[global] Instance outcome_bind : MBind outcome := fun A B f x =>
  match x with
  | Ok a => f a
  | Abort msg => Abort msg
  | Fault => Fault
  end.

(** eoslib's [assert(cond, msg)]: halts the contract when [cond] is false. *)
Definition assert (cond : bool) (msg : string) : outcome unit :=
  if cond then Ok tt else Abort msg.

(** ** Memory *)

Inductive ptr : Type :=
| nullptr
| Ptr (blk : nat) (off : Z).

Definition ptr_add (p : ptr) (k : Z) : ptr :=
  match p with
  | nullptr => nullptr
  | Ptr b o => Ptr b (o + k)
  end.

Record Mem : Type := mkMem {
  blocks : gmap nat (list byte);
  cells : gmap nat Z
}.

Definition empty_mem : Mem := mkMem ∅ ∅.

(** [*p] for a [char*]. *)
Definition load (m : Mem) (p : ptr) : outcome byte :=
  match p with
  | nullptr => Fault
  | Ptr b o =>
      match blocks m !! b with
      | Some bs =>
          if 0 <=? o
          then match bs !! Z.to_nat o with
               | Some c => Ok c
               | None => Fault
               end
          else Fault
      | None => Fault
      end
  end.

(** The [n] bytes starting at [p]; nothing is touched when [n] is zero. *)
Definition read (m : Mem) (p : ptr) (n : Z) : outcome (list byte) :=
  if n =? 0 then Ok []
  else match p with
       | nullptr => Fault
       | Ptr b o =>
           match blocks m !! b with
           | Some bs =>
               if (0 <=? o) && (0 <=? n) && (o + n <=? Z.of_nat (length bs))
               then Ok (take (Z.to_nat n) (drop (Z.to_nat o) bs))
               else Fault
           | None => Fault
           end
       end.

Definition write (m : Mem) (p : ptr) (new : list byte) : outcome Mem :=
  match new with
  | [] => Ok m
  | _ =>
      match p with
      | nullptr => Fault
      | Ptr b o =>
          match blocks m !! b with
          | Some bs =>
              if (0 <=? o) && (o + Z.of_nat (length new) <=? Z.of_nat (length bs))
              then Ok (mkMem
                         (<[b := take (Z.to_nat o) bs ++ new ++
                                 drop (Z.to_nat o + length new) bs]> (blocks m))
                         (cells m))
              else Fault
          | None => Fault
          end
      end
  end.

Definition memcpy (m : Mem) (dst src : ptr) (n : Z) : outcome Mem :=
  bs ← read m src n; write m dst bs.

Definition free (m : Mem) (p : ptr) : outcome Mem :=
  match p with
  | nullptr => Ok m
  | Ptr b o =>
      if o =? 0
      then match blocks m !! b with
           | Some _ => Ok (mkMem (delete b (blocks m)) (cells m))
           | None => Fault
           end
      else Fault
  end.

(** [(uint32_t* )malloc(sizeof(uint32_t))]. *)
Definition malloc_cell (m : Mem) : Mem * nat :=
  let c := fresh (dom (cells m)) in
  (mkMem (blocks m) (<[c := 0]> (cells m)), c).

Definition load_cell (m : Mem) (c : nat) : outcome Z :=
  match cells m !! c with
  | Some v => Ok v
  | None => Fault
  end.

Definition store_cell (m : Mem) (c : nat) (v : Z) : outcome Mem :=
  match cells m !! c with
  | Some _ => Ok (mkMem (blocks m) (<[c := v]> (cells m)))
  | None => Fault
  end.

(** ** The class *)

Record String : Type := mkString {
  size : Z;
  data : ptr;
  own_memory : bool;
  refcount : option nat
}.

Definition wf_String (s : String) : Prop := is_uint32 (size s).

(** The bytes a string designates: [size] bytes from [data]. *)
Definition contents (m : Mem) (s : String) : outcome (list byte) :=
  read m (data s) (size s).

(** ** Sample memory and strings *)

(** A [malloc] that hands out zeroed blocks. *)
Definition zero_junk : nat -> nat -> byte := fun _ _ => x00.

(** Block 0 holds "ab" and a zero byte, with one owner; block 1 holds "cd";
    block 2 holds the UTF-8 bytes of "héllo"; block 3 holds "hello". *)
Definition demo_mem : Mem :=
  mkMem (<[0%nat := [x61; x62; x00]]>
         (<[1%nat := [x63; x64]]>
          (<[2%nat := [x68; xc3; xa9; x6c; x6c; x6f]]>
           (<[3%nat := [x68; x65; x6c; x6c; x6f]]> ∅))))
        (<[0%nat := 1]> ∅).

Definition demo_ab0 : String := mkString 3 (Ptr 0 0) true (Some 0%nat).
Definition demo_cd : String := mkString 2 (Ptr 1 0) false None.
Definition demo_hello_utf8 : String := mkString 6 (Ptr 2 0) false None.
Definition demo_hello : String := mkString 5 (Ptr 3 0) false None.
Definition demo_huge : String := mkString 4294967295 (Ptr 3 0) false None.

(** Two views into block 2: the two bytes 0xC3 0xA9 (the UTF-8 encoding of
    e with an acute accent) and the one byte "h". *)
Definition demo_eacute : String := mkString 2 (Ptr 2 1) false None.
Definition demo_h : String := mkString 1 (Ptr 2 0) false None.

Section Methods.

(** What the platform leaves open: whether plain [char] is signed, and the
    bytes found in a block that [malloc] has just returned. *)
Variable char_signed : bool.
Variable junk : nat -> nat -> byte.

(** The value of a byte as a [char]. *)
Definition char_val (c : byte) : Z :=
  let u := uint8_of c in
  if char_signed && (128 <=? u) then u - 256 else u.

(** [(char * )malloc(n)]. *)
Definition malloc (m : Mem) (n : Z) : Mem * ptr :=
  let b := fresh (dom (blocks m)) in
  (mkMem (<[b := junk b <$> seq 0 (Z.to_nat n)]> (blocks m)) (cells m), Ptr b 0).

(** [refcount = malloc(sizeof(uint32_t)); *refcount = 1;] *)
Definition new_refcount (m : Mem) : outcome (Mem * nat) :=
  let '(m1, c) := malloc_cell m in
  m2 ← store_cell m1 c 1;
  Ok (m2, c).

(** [if (refcount != nullptr) ( *refcount)++;] *)
Definition incr_refcount (m : Mem) (r : option nat) : outcome Mem :=
  match r with
  | Some c => v ← load_cell m c; store_cell m c (wrap32 (v + 1))
  | None => Ok m
  end.

Definition release_data_if_needed (m : Mem) (this : String) : outcome Mem :=
  match own_memory this, refcount this with
  | true, Some c =>
      v ← load_cell m c;
      m1 ← store_cell m c (wrap32 (v - 1));
      v' ← load_cell m1 c;
      if v' =? 0 then free m1 (data this) else Ok m1
  | _, _ => Ok m
  end.

(** [String()] *)
Definition String_default : String := mkString 0 nullptr false None.

(** [String(uint32_t s)] *)
Definition String_reserve (m : Mem) (s : Z) : outcome (Mem * String) :=
  let '(m1, d) := malloc m (wrap32 (s * 1)) in
  '(m2, c) ← new_refcount m1;
  Ok (m2, mkString s d true (Some c)).

Definition assign (m : Mem) (this : String) (d : ptr) (s : Z) (copy : bool)
  : outcome (Mem * String) :=
  m0 ← release_data_if_needed m this;
  if copy then
    let '(m1, nd) := malloc m0 (wrap32 (s * 1)) in
    m2 ← memcpy m1 nd d (wrap32 (s * 1));
    '(m3, c) ← new_refcount m2;
    Ok (m3, mkString s nd true (Some c))
  else
    Ok (m0, mkString s d false None).

(** [String(char* d, uint32_t s, bool copy)].  The constructor calls
    [assign] on the object under construction, whose members have not been
    initialised: [raw] stands for what they hold at that point. *)
Definition String_from (raw : String) (m : Mem) (d : ptr) (s : Z) (copy : bool)
  : outcome (Mem * String) :=
  assign m raw d s copy.

(** [String(const String& obj)].  The test [this != &obj] holds for every
    object under construction. *)
Definition String_copy (m : Mem) (obj : String) : outcome (Mem * String) :=
  m1 ← incr_refcount m (refcount obj);
  Ok (m1, mkString (size obj) (data obj) (own_memory obj) (refcount obj)).

(** [~String()] *)
Definition String_destroy (m : Mem) (this : String) : outcome Mem :=
  release_data_if_needed m this.

Definition get_size (this : String) : Z := size this.
Definition get_data (this : String) : ptr := data this.
Definition is_own_memory (this : String) : bool := own_memory this.
Definition get_refcount (m : Mem) (this : String) : outcome Z :=
  match refcount this with
  | Some c => load_cell m c
  | None => Fault
  end.

Definition substr (raw : String) (m : Mem) (this : String)
    (offset substr_size : Z) (copy : bool) : outcome (Mem * String) :=
  'tt ← assert ((offset <? size this) &&
              (wrap32 (offset + substr_size) <? size this)) "out of bound";
  String_from raw m (ptr_add (data this) offset) substr_size copy.

(** The test [size > 0 && *(data + size - 1) == '\0'] shared by [strlen],
    [strlenUTF8], [operator +=] and [print]. *)
Definition ends_with_nul (m : Mem) (this : String) : outcome bool :=
  if 0 <? size this
  then c ← load m (ptr_add (ptr_add (data this) (size this)) (-1));
       Ok (Byte.eqb c x00)
  else Ok false.

Definition strlen (m : Mem) (this : String) : outcome Z :=
  z ← ends_with_nul m this;
  if (z : bool) then Ok (wrap32 (size this / 1 - 1)) else Ok (size this / 1).

(** The [while (iterator != end)] loop of [strlenUTF8]; [remaining] is the
    distance [end - iterator]. *)
Fixpoint strlenUTF8_loop (m : Mem) (iterator : ptr) (remaining : nat) (len : Z)
  : outcome Z :=
  match remaining with
  | O => Ok len
  | S k =>
      c ← load m iterator;
      let byte := uint8_of c in
      let len' := if negb ((0x80 <=? byte) && (byte <=? 0xBF))
                  then wrap32 (len + 1) else len in
      strlenUTF8_loop m (ptr_add iterator 1) k len'
  end.

Definition strlenUTF8 (m : Mem) (this : String) : outcome Z :=
  z ← ends_with_nul m this;
  let end_off := if (z : bool) then size this - 1 else size this in
  strlenUTF8_loop m (data this) (Z.to_nat end_off) 0.

(** [operator []] *)
Definition operator_index (m : Mem) (this : String) (index : Z) : outcome byte :=
  'tt ← assert (index <? size this) "index out of bound";
  load m (ptr_add (data this) index).

(** [operator =] on the objects stored at addresses [this] and [obj]. *)
Definition operator_assign (m : Mem) (objs : gmap nat String) (this obj : nat)
  : outcome (Mem * gmap nat String) :=
  match objs !! this, objs !! obj with
  | Some t, Some o =>
      if bool_decide (this ≠ obj) then
        m1 ← release_data_if_needed m t;
        m2 ← incr_refcount m1 (refcount o);
        Ok (m2, <[this := mkString (size o) (data o) (own_memory o) (refcount o)]> objs)
      else Ok (m, objs)
  | _, _ => Fault
  end.

(** [operator +=] *)
Definition operator_plus_eq (m : Mem) (this str : String)
  : outcome (Mem * String) :=
  'tt ← assert ((size this <? wrap32 (size this + size str)) &&
              (size str <? wrap32 (size this + size str))) "overflow";
  z ← ends_with_nul m this;
  '(m2, new_data, new_size) ←
    (if (z : bool) then
       let new_size := wrap32 (wrap32 (size this - 1) + size str) in
       let '(m0, new_data) := malloc m (wrap32 (new_size * 1)) in
       m1 ← memcpy m0 new_data (data this) (wrap32 (wrap32 (size this - 1) * 1));
       m2 ← memcpy m1 (ptr_add (ptr_add new_data (size this)) (-1)) (data str)
              (wrap32 (size str * 1));
       Ok (m2, new_data, new_size)
     else
       let new_size := wrap32 (size this + size str) in
       let '(m0, new_data) := malloc m (wrap32 (new_size * 1)) in
       m1 ← memcpy m0 new_data (data this) (wrap32 (size this * 1));
       m2 ← memcpy m1 (ptr_add new_data (size this)) (data str)
              (wrap32 (size str * 1));
       Ok (m2, new_data, new_size));
  m3 ← release_data_if_needed m2 this;
  '(m4, c) ← new_refcount m3;
  Ok (m4, mkString new_size new_data true (Some c)).

(** The [while] loop of [compare]; [rem1] and [rem2] are the distances
    [str1_end - str1_iterator] and [str2_end - str2_iterator]. *)
Fixpoint compare_loop (m : Mem) (str1_iterator str2_iterator : ptr)
    (rem1 rem2 : nat) : outcome Z :=
  match rem1, rem2 with
  | O, O => Ok 0
  | O, S _ => Ok (-1)
  | S _, O => Ok 1
  | S k1, S k2 =>
      c1 ← load m str1_iterator;
      c2 ← load m str2_iterator;
      if char_val c2 <? char_val c1 then Ok 1
      else if char_val c1 <? char_val c2 then Ok (-1)
      else compare_loop m (ptr_add str1_iterator 1) (ptr_add str2_iterator 1) k1 k2
  end.

Definition compare (m : Mem) (this str : String) : outcome Z :=
  compare_loop m (data this) (data str)
    (Z.to_nat (size this)) (Z.to_nat (size str)).

Definition operator_lt (m : Mem) (lhs rhs : String) : outcome bool :=
  r ← compare m lhs rhs; Ok (r <? 0).

Definition operator_gt (m : Mem) (lhs rhs : String) : outcome bool :=
  r ← compare m lhs rhs; Ok (0 <? r).

Definition operator_eq (m : Mem) (lhs rhs : String) : outcome bool :=
  r ← compare m lhs rhs; Ok (r =? 0).

Definition operator_ne (m : Mem) (lhs rhs : String) : outcome bool :=
  r ← compare m lhs rhs; Ok (negb (r =? 0)).

(** [operator +]: the left operand is passed by value, [+=] runs on that
    copy, the result is copied out of it, and the copy is destroyed. *)
Definition operator_plus (m : Mem) (lhs rhs : String) : outcome (Mem * String) :=
  '(m1, l) ← String_copy m lhs;
  '(m2, l') ← operator_plus_eq m1 l rhs;
  '(m3, r) ← String_copy m2 l';
  m4 ← String_destroy m3 l';
  Ok (m4, r).

(** ** Vocabulary of the properties *)

(** The last byte of the contents is the zero byte. *)
Definition final_nul (bs : list byte) : bool :=
  match last bs with
  | Some c => Byte.eqb c x00
  | None => false
  end.

(** The contents without their final zero byte, when they have one. *)
Definition drop_final_nul (bs : list byte) : list byte :=
  if final_nul bs then take (length bs - 1) bs else bs.

(** A UTF-8 continuation byte, [10xxxxxx]. *)
Definition utf8_continuation (c : byte) : bool :=
  (0x80 <=? uint8_of c) && (uint8_of c <=? 0xBF).

(** Number of bytes of [bs] that are not continuation bytes. *)
Definition count_lead_bytes (bs : list byte) : Z :=
  Z.of_nat (length (List.filter (fun c => negb (utf8_continuation c)) bs)).

(** [bs] sits in memory from [p] on, one [load] per byte. *)
Definition bytes_at (m : Mem) (p : ptr) (bs : list byte) : Prop :=
  forall (i : nat) (c : byte),
    bs !! i = Some c -> load m (ptr_add p (Z.of_nat i)) = Ok c.

(** [xs] is a strict prefix of [ys]. *)
Definition strict_prefix (xs ys : list byte) : Prop :=
  exists t, t <> [] /\ ys = xs ++ t.

(** [xs] and [ys] agree up to a position where [xs] holds the smaller
    byte, bytes being ordered by their value, 0 to 255. *)
Definition first_diff_byte_lt (xs ys : list byte) : Prop :=
  exists pre x y tx ty,
    xs = pre ++ x :: tx /\ ys = pre ++ y :: ty /\ uint8_of x < uint8_of y.

(** The same with the bytes ordered as the code orders them, as values of
    plain [char]. *)
Definition first_diff_char_lt (xs ys : list byte) : Prop :=
  exists pre x y tx ty,
    xs = pre ++ x :: tx /\ ys = pre ++ y :: ty /\ char_val x < char_val y.

(** The loop of [compare] replayed on the contents of the two strings. *)
Fixpoint compare_bytes (xs ys : list byte) : Z :=
  match xs, ys with
  | [], [] => 0
  | [], _ :: _ => -1
  | _ :: _, [] => 1
  | x :: xs', y :: ys' =>
      if char_val y <? char_val x then 1
      else if char_val x <? char_val y then -1
      else compare_bytes xs' ys'
  end.

(** The counter a string points at, if any, is an allocated cell. *)
Definition refcount_live (m : Mem) (s : String) : Prop :=
  match refcount s with
  | Some c => is_Some (cells m !! c)
  | None => True
  end.

(** An outcome that is not a failed [assert]. *)
Definition no_abort {A : Type} (x : outcome A) : Prop :=
  forall msg, x <> Abort msg.

(** The part of [operator +=] that allocates and fills the new buffer: the
    test for a final zero byte and the two branches with their [malloc] and
    [memcpy] calls.  It yields the memory, [new_data] and [new_size]. *)
Definition concat_build (m : Mem) (this str : String)
  : outcome (Mem * ptr * Z) :=
  z ← ends_with_nul m this;
  if (z : bool) then
    let new_size := wrap32 (wrap32 (size this - 1) + size str) in
    let '(m0, new_data) := malloc m (wrap32 (new_size * 1)) in
    m1 ← memcpy m0 new_data (data this) (wrap32 (wrap32 (size this - 1) * 1));
    m2 ← memcpy m1 (ptr_add (ptr_add new_data (size this)) (-1)) (data str)
           (wrap32 (size str * 1));
    Ok (m2, new_data, new_size)
  else
    let new_size := wrap32 (size this + size str) in
    let '(m0, new_data) := malloc m (wrap32 (new_size * 1)) in
    m1 ← memcpy m0 new_data (data this) (wrap32 (size this * 1));
    m2 ← memcpy m1 (ptr_add new_data (size this)) (data str)
           (wrap32 (size str * 1));
    Ok (m2, new_data, new_size).

(** The part of [operator +=] that follows: release the old data, adopt the
    new buffer with a counter of its own. *)
Definition concat_adopt (this : String) (built : Mem * ptr * Z)
  : outcome (Mem * String) :=
  let '(m2, new_data, new_size) := built in
  m3 ← release_data_if_needed m2 this;
  '(m4, c) ← new_refcount m3;
  Ok (m4, mkString new_size new_data true (Some c)).

(** The condition of the [assert] of [operator +=]. *)
Definition sum_exceeds_both (this str : String) : Prop :=
  size this < wrap32 (size this + size str) /\
  size str < wrap32 (size this + size str).

(** The reference that [this] held was its last one: [this] owns its data,
    and the counter it points at has been brought to zero in [m']. *)
Definition last_reference_dropped (m' : Mem) (this : String) : Prop :=
  own_memory this = true /\
  exists c0, refcount this = Some c0 /\ cells m' !! c0 = Some 0.

(** ** Arithmetic and memory lemmas *)

Lemma wrap32_id (z : Z) : is_uint32 z -> wrap32 z = z.
Proof. intros H. unfold wrap32. apply Z.mod_small. exact H. Qed.

Lemma wrap32_range (z : Z) : is_uint32 (wrap32 z).
Proof. unfold is_uint32, wrap32. apply Z.mod_pos_bound. lia. Qed.

Lemma ptr_add_0 (p : ptr) : ptr_add p 0 = p.
Proof. destruct p as [|b o]; simpl; [reflexivity | f_equal; lia]. Qed.

Lemma ptr_add_add (p : ptr) (a b : Z) :
  ptr_add (ptr_add p a) b = ptr_add p (a + b).
Proof. destruct p as [|k o]; simpl; [reflexivity | f_equal; lia]. Qed.

Lemma bytes_at_nil (m : Mem) (p : ptr) : bytes_at m p [].
Proof. intros i c H. rewrite lookup_nil in H. discriminate. Qed.

Lemma bytes_at_cons (m : Mem) (p : ptr) (c : byte) (bs : list byte) :
  bytes_at m p (c :: bs) ->
  load m p = Ok c /\ bytes_at m (ptr_add p 1) bs.
Proof.
  intros H. split.
  - specialize (H 0%nat c eq_refl). simpl in H.
    rewrite ptr_add_0 in H. exact H.
  - intros i x Hi. rewrite ptr_add_add.
    replace (1 + Z.of_nat i) with (Z.of_nat (S i)) by lia.
    apply H. exact Hi.
Qed.

Lemma read_Ok_inv (m : Mem) (p : ptr) (n : Z) (bs : list byte) :
  read m p n = Ok bs ->
  0 <= n /\ length bs = Z.to_nat n /\ bytes_at m p bs.
Proof.
  unfold read. destruct (Z.eqb_spec n 0) as [->|Hn].
  - intros [= <-]. split; [lia|]. split; [reflexivity|]. apply bytes_at_nil.
  - destruct p as [|b o]; [discriminate|].
    destruct (blocks m !! b) as [blk|] eqn:Hb; [|discriminate].
    destruct (Z.leb_spec 0 o) as [Ho|]; [|discriminate].
    destruct (Z.leb_spec 0 n) as [Hn0|]; [|discriminate].
    destruct (Z.leb_spec (o + n) (Z.of_nat (length blk))) as [Hlen|]; [|discriminate].
    simpl. intros [= <-]. split; [lia|]. split.
    + rewrite length_take, length_drop. lia.
    + intros i c Hi. apply lookup_take_Some in Hi as [Hi Hlt].
      rewrite lookup_drop in Hi. simpl. rewrite Hb.
      destruct (Z.leb_spec 0 (o + Z.of_nat i)) as [_|]; [|lia].
      replace (Z.to_nat (o + Z.of_nat i)) with (Z.to_nat o + i)%nat by lia.
      rewrite Hi. reflexivity.
Qed.

Lemma contents_inv (m : Mem) (s : String) (bs : list byte) :
  contents m s = Ok bs ->
  0 <= size s /\ Z.of_nat (length bs) = size s /\ bytes_at m (data s) bs.
Proof.
  intros H. apply read_Ok_inv in H as (H0 & Hl & Hb).
  split; [exact H0|]. split; [lia | exact Hb].
Qed.

Lemma ends_with_nul_contents (m : Mem) (s : String) (bs : list byte) :
  contents m s = Ok bs -> ends_with_nul m s = Ok (final_nul bs).
Proof.
  intros H. apply contents_inv in H as (H0 & Hl & Hb).
  unfold ends_with_nul, final_nul.
  destruct (Z.ltb_spec 0 (size s)) as [Hpos|Hz].
  - rewrite ptr_add_add.
    destruct (last bs) as [c|] eqn:Hlast.
    + rewrite last_lookup in Hlast. apply Hb in Hlast.
      replace (size s + -1) with (Z.of_nat (pred (length bs))) by lia.
      rewrite Hlast. reflexivity.
    + apply last_None in Hlast. subst bs. simpl in Hl. lia.
  - assert (bs = []) as -> by (destruct bs; [reflexivity | simpl in Hl; lia]).
    reflexivity.
Qed.

Lemma bytes_at_take (m : Mem) (p : ptr) (bs : list byte) (k : nat) :
  bytes_at m p bs -> bytes_at m p (take k bs).
Proof.
  intros H i c Hi. apply lookup_take_Some in Hi as [Hi _]. apply H. exact Hi.
Qed.

Lemma final_nul_true (bs : list byte) :
  final_nul bs = true <-> last bs = Some x00.
Proof.
  unfold final_nul. destruct (last bs) as [c|]; split; intros H.
  - apply Byte.byte_dec_bl in H. subst c. reflexivity.
  - injection H as ->. reflexivity.
  - discriminate.
  - discriminate.
Qed.

Lemma final_nul_nonempty (bs : list byte) :
  final_nul bs = true -> (0 < length bs)%nat.
Proof.
  unfold final_nul. destruct bs as [|c t]; simpl; [discriminate | lia].
Qed.

Lemma length_drop_final_nul (bs : list byte) :
  length (drop_final_nul bs) =
  if final_nul bs then (length bs - 1)%nat else length bs.
Proof.
  unfold drop_final_nul. destruct (final_nul bs); [|reflexivity].
  rewrite length_take. lia.
Qed.

(** ** Byte length *)

Lemma strlen_contents (m : Mem) (this : String) (bs : list byte) :
  wf_String this -> contents m this = Ok bs ->
  strlen m this = Ok (if final_nul bs then size this - 1 else size this).
Proof.
  intros Hwf Hc. unfold strlen.
  rewrite (ends_with_nul_contents _ _ _ Hc). simpl.
  apply contents_inv in Hc as (H0 & Hl & _).
  rewrite Z.div_1_r.
  destruct (final_nul bs) eqn:Hf; [|reflexivity].
  apply final_nul_nonempty in Hf.
  rewrite wrap32_id; [reflexivity|].
  unfold wf_String, is_uint32 in *. lia.
Qed.

(** C6: [strlen] returns [size - 1] when [size > 0] and the final byte is
    the zero byte, and [size] otherwise; the 4 bytes of "abc" followed by a
    zero byte give 3, and the 3 bytes "abc" give 3 as well. *)
Theorem strlen_spec (m : Mem) (this : String) (bs : list byte) :
  wf_String this -> contents m this = Ok bs ->
  (0 < size this -> last bs = Some x00 ->
   strlen m this = Ok (size this - 1)) /\
  (~ (0 < size this /\ last bs = Some x00) ->
   strlen m this = Ok (size this)) /\
  (bs = [x61; x62; x63; x00] -> strlen m this = Ok 3) /\
  (bs = [x61; x62; x63] -> strlen m this = Ok 3).
Proof.
  intros Hwf Hc. pose proof (strlen_contents _ _ _ Hwf Hc) as Hs.
  pose proof (contents_inv _ _ _ Hc) as (H0 & Hl & _).
  repeat split.
  - intros _ Hlast. apply final_nul_true in Hlast.
    rewrite Hlast in Hs. exact Hs.
  - intros Hno. destruct (final_nul bs) eqn:Hf; [|exact Hs].
    exfalso. apply Hno. split.
    + apply final_nul_nonempty in Hf. lia.
    + apply final_nul_true. exact Hf.
  - intros ->. simpl in Hl. rewrite Hs. simpl. f_equal. lia.
  - intros ->. simpl in Hl. rewrite Hs. simpl. f_equal. lia.
Qed.

(** ** UTF-8 character count *)

Lemma strlenUTF8_loop_count (m : Mem) (bs : list byte) :
  forall (p : ptr) (len : Z),
    bytes_at m p bs ->
    0 <= len -> len + Z.of_nat (length bs) < 2 ^ 32 ->
    strlenUTF8_loop m p (length bs) len = Ok (len + count_lead_bytes bs).
Proof.
  unfold count_lead_bytes.
  induction bs as [|c t IH]; intros p len Hb H0 Hlt.
  - simpl. f_equal. lia.
  - apply bytes_at_cons in Hb as [Hc Ht].
    simpl length in Hlt. simpl strlenUTF8_loop. rewrite Hc. simpl.
    fold (utf8_continuation c).
    destruct (utf8_continuation c) eqn:Hu; simpl.
    + apply IH; [exact Ht | lia | lia].
    + rewrite wrap32_id by (unfold is_uint32; lia).
      rewrite IH; [f_equal; lia | exact Ht | lia | lia].
Qed.

Lemma strlenUTF8_contents (m : Mem) (this : String) (bs : list byte) :
  wf_String this -> contents m this = Ok bs ->
  strlenUTF8 m this = Ok (count_lead_bytes (drop_final_nul bs)).
Proof.
  intros Hwf Hc. unfold strlenUTF8.
  rewrite (ends_with_nul_contents _ _ _ Hc). simpl.
  apply contents_inv in Hc as (H0 & Hl & Hb).
  pose proof (length_drop_final_nul bs) as Hlen.
  assert (bytes_at m (data this) (drop_final_nul bs)) as Hb'.
  { unfold drop_final_nul. destruct (final_nul bs); [|exact Hb].
    apply bytes_at_take. exact Hb. }
  assert (Z.to_nat (if final_nul bs then size this - 1 else size this)
          = length (drop_final_nul bs)) as ->.
  { rewrite Hlen. destruct (final_nul bs); lia. }
  rewrite strlenUTF8_loop_count; [reflexivity | exact Hb' | lia |].
  unfold wf_String, is_uint32 in Hwf. rewrite Hlen.
  destruct (final_nul bs); lia.
Qed.

(** C7: [strlenUTF8] returns the number of bytes of the scan range that are
    not continuation bytes (values 0x80 to 0xBF), the scan range being all
    the bytes but a final zero byte; the UTF-8 encoding of "héllo" gives 5
    with and without a zero terminator. *)
Theorem strlenUTF8_spec (m : Mem) (this : String) (bs : list byte) :
  wf_String this -> contents m this = Ok bs ->
  strlenUTF8 m this =
    Ok (Z.of_nat (length (List.filter
          (fun c => negb ((0x80 <=? uint8_of c) && (uint8_of c <=? 0xBF)))
          (if final_nul bs then take (length bs - 1) bs else bs)))) /\
  (final_nul bs = true <-> last bs = Some x00) /\
  (bs = [x68; xc3; xa9; x6c; x6c; x6f] -> strlenUTF8 m this = Ok 5) /\
  (bs = [x68; xc3; xa9; x6c; x6c; x6f; x00] -> strlenUTF8 m this = Ok 5).
Proof.
  intros Hwf Hc. pose proof (strlenUTF8_contents _ _ _ Hwf Hc) as Hs.
  split; [exact Hs|]. split; [apply final_nul_true|].
  split; intros ->; rewrite Hs; reflexivity.
Qed.

(** ** Comparison *)

Lemma uint8_of_range (c : byte) : 0 <= uint8_of c <= 255.
Proof. unfold uint8_of. pose proof (Byte.to_N_bounded c). lia. Qed.

Lemma uint8_of_inj (x y : byte) : uint8_of x = uint8_of y -> x = y.
Proof.
  unfold uint8_of. intros H. apply N2Z.inj in H.
  pose proof (Byte.of_to_N x) as Hx. rewrite H, Byte.of_to_N in Hx.
  congruence.
Qed.

Lemma char_val_inj (x y : byte) : char_val x = char_val y -> x = y.
Proof.
  unfold char_val. intros H. apply uint8_of_inj.
  pose proof (uint8_of_range x). pose proof (uint8_of_range y).
  destruct char_signed; simpl in H; [|exact H].
  destruct (Z.leb_spec 128 (uint8_of x)), (Z.leb_spec 128 (uint8_of y)); lia.
Qed.

Lemma compare_loop_bytes (m : Mem) (xs : list byte) :
  forall (ys : list byte) (p1 p2 : ptr),
    bytes_at m p1 xs -> bytes_at m p2 ys ->
    compare_loop m p1 p2 (length xs) (length ys) = Ok (compare_bytes xs ys).
Proof.
  induction xs as [|x xs' IH]; intros [|y ys'] p1 p2 H1 H2; try reflexivity.
  apply bytes_at_cons in H1 as [Hx H1]. apply bytes_at_cons in H2 as [Hy H2].
  simpl. rewrite Hx, Hy. simpl.
  destruct (char_val y <? char_val x); [reflexivity|].
  destruct (char_val x <? char_val y); [reflexivity|].
  apply IH; assumption.
Qed.

Lemma compare_contents (m : Mem) (a b : String) (xs ys : list byte) :
  contents m a = Ok xs -> contents m b = Ok ys ->
  compare m a b = Ok (compare_bytes xs ys).
Proof.
  intros Ha Hb.
  apply contents_inv in Ha as (_ & Hla & Ha).
  apply contents_inv in Hb as (_ & Hlb & Hb).
  unfold compare.
  replace (Z.to_nat (size a)) with (length xs) by lia.
  replace (Z.to_nat (size b)) with (length ys) by lia.
  apply compare_loop_bytes; assumption.
Qed.

Lemma compare_bytes_range (xs ys : list byte) :
  compare_bytes xs ys = 1 \/ compare_bytes xs ys = 0 \/ compare_bytes xs ys = -1.
Proof.
  revert ys. induction xs as [|x xs' IH]; intros [|y ys']; simpl; auto.
  destruct (char_val y <? char_val x); [auto|].
  destruct (char_val x <? char_val y); auto.
Qed.

Lemma compare_bytes_antisym (xs ys : list byte) :
  compare_bytes ys xs = - compare_bytes xs ys.
Proof.
  revert ys. induction xs as [|x xs' IH]; intros [|y ys']; simpl; try reflexivity.
  destruct (Z.ltb_spec (char_val y) (char_val x)),
           (Z.ltb_spec (char_val x) (char_val y)); try lia; try reflexivity.
  apply IH.
Qed.

Lemma compare_bytes_refl (xs : list byte) : compare_bytes xs xs = 0.
Proof.
  induction xs as [|x xs' IH]; simpl; [reflexivity|].
  rewrite Z.ltb_irrefl. exact IH.
Qed.

Lemma compare_bytes_eq (xs ys : list byte) :
  compare_bytes xs ys = 0 <-> xs = ys.
Proof.
  split; [|intros ->; apply compare_bytes_refl].
  revert ys. induction xs as [|x xs' IH]; intros [|y ys']; simpl;
    try discriminate; try reflexivity.
  destruct (Z.ltb_spec (char_val y) (char_val x)); [discriminate|].
  destruct (Z.ltb_spec (char_val x) (char_val y)); [discriminate|].
  intros Hr. rewrite (IH _ Hr). f_equal. apply char_val_inj. lia.
Qed.

Lemma compare_bytes_prefix (xs ys : list byte) :
  strict_prefix xs ys -> compare_bytes xs ys = -1.
Proof.
  intros (t & Ht & ->). induction xs as [|x xs' IH]; simpl.
  - destruct t; [congruence | reflexivity].
  - rewrite Z.ltb_irrefl. exact IH.
Qed.

Lemma compare_bytes_first_diff (xs ys : list byte) :
  first_diff_char_lt xs ys -> compare_bytes xs ys = -1.
Proof.
  intros (pre & x & y & tx & ty & -> & -> & Hlt).
  induction pre as [|c pre IH]; simpl.
  - destruct (Z.ltb_spec (char_val y) (char_val x)); [lia|].
    destruct (Z.ltb_spec (char_val x) (char_val y)); [reflexivity | lia].
  - rewrite Z.ltb_irrefl. exact IH.
Qed.

Lemma compare_bytes_lt (xs ys : list byte) :
  compare_bytes xs ys = -1 <-> strict_prefix xs ys \/ first_diff_char_lt xs ys.
Proof.
  split; [|intros [H|H];
            [apply compare_bytes_prefix | apply compare_bytes_first_diff]; exact H].
  revert ys. induction xs as [|x xs' IH]; intros [|y ys']; simpl;
    try discriminate.
  - intros _. left. exists (y :: ys'). split; [discriminate | reflexivity].
  - destruct (Z.ltb_spec (char_val y) (char_val x)); [discriminate|].
    destruct (Z.ltb_spec (char_val x) (char_val y)) as [Hlt|Hge].
    + intros _. right. exists [], x, y, xs', ys'. auto.
    + intros Hr. assert (x = y) as <- by (apply char_val_inj; lia).
      destruct (IH _ Hr) as [(t & Ht & ->)|(pre & u & v & tx & ty & -> & -> & Huv)].
      * left. exists t. split; [exact Ht | reflexivity].
      * right. exists (x :: pre), u, v, tx, ty. auto.
Qed.

Lemma compare_bytes_gt (xs ys : list byte) :
  compare_bytes xs ys = 1 <-> strict_prefix ys xs \/ first_diff_char_lt ys xs.
Proof.
  rewrite <- compare_bytes_lt, (compare_bytes_antisym xs ys). lia.
Qed.

Lemma char_val_ascii (c : byte) : uint8_of c < 128 -> char_val c = uint8_of c.
Proof.
  intros H. unfold char_val.
  destruct (Z.leb_spec 128 (uint8_of c)); [lia|].
  rewrite andb_false_r. reflexivity.
Qed.

Lemma operators_contents (m : Mem) (a b : String) (xs ys : list byte) :
  contents m a = Ok xs -> contents m b = Ok ys ->
  operator_lt m a b = Ok (bool_decide (compare_bytes xs ys = -1)) /\
  operator_gt m a b = Ok (bool_decide (compare_bytes xs ys = 1)) /\
  operator_eq m a b = Ok (bool_decide (compare_bytes xs ys = 0)) /\
  operator_ne m a b = Ok (bool_decide (compare_bytes xs ys <> 0)).
Proof.
  intros Ha Hb. unfold operator_lt, operator_gt, operator_eq, operator_ne.
  rewrite (compare_contents _ _ _ _ _ Ha Hb). simpl.
  destruct (compare_bytes_range xs ys) as [-> | [-> | ->]]; auto.
Qed.

(** [compare] is the lexicographic comparison of the contents under the
    order of plain [char]: it returns 1, 0 or -1; 0 exactly when the
    contents are identical, -1 exactly when the left contents are a strict
    prefix of the right ones or hold the smaller [char] at the first
    difference, 1 in the symmetric cases; [<], [>], [==] and [!=] are read
    off that result.  "abc" < "abd", "abc" < "abcd" and "abc" == "abc". *)
Lemma compare_char_order (m : Mem) (a b : String) (xs ys : list byte) :
  contents m a = Ok xs -> contents m b = Ok ys ->
  exists r : Z,
    compare m a b = Ok r /\
    (r = 1 \/ r = 0 \/ r = -1) /\
    (r = 0 <-> xs = ys) /\
    (r = -1 <-> strict_prefix xs ys \/ first_diff_char_lt xs ys) /\
    (r = 1 <-> strict_prefix ys xs \/ first_diff_char_lt ys xs) /\
    operator_lt m a b = Ok (bool_decide (r = -1)) /\
    operator_gt m a b = Ok (bool_decide (r = 1)) /\
    operator_eq m a b = Ok (bool_decide (r = 0)) /\
    operator_ne m a b = Ok (bool_decide (r <> 0)) /\
    (xs = [x61; x62; x63] -> ys = [x61; x62; x64] ->
     operator_lt m a b = Ok true) /\
    (xs = [x61; x62; x63] -> ys = [x61; x62; x63; x64] ->
     operator_lt m a b = Ok true) /\
    (xs = [x61; x62; x63] -> ys = [x61; x62; x63] ->
     operator_eq m a b = Ok true).
Proof.
  intros Ha Hb. exists (compare_bytes xs ys).
  destruct (operators_contents _ _ _ _ _ Ha Hb) as (Hlt & Hgt & Heq & Hne).
  split; [apply compare_contents; assumption|].
  split; [apply compare_bytes_range|].
  split; [apply compare_bytes_eq|].
  split; [apply compare_bytes_lt|].
  split; [apply compare_bytes_gt|].
  do 4 (split; [assumption|]).
  split; [|split].
  - intros -> ->. rewrite Hlt. f_equal. apply bool_decide_eq_true.
    apply compare_bytes_first_diff.
    exists [x61; x62], x63, x64, [], [].
    split; [reflexivity|]. split; [reflexivity|].
    rewrite !char_val_ascii by (vm_compute; reflexivity).
    vm_compute. reflexivity.
  - intros -> ->. rewrite Hlt. f_equal. apply bool_decide_eq_true.
    apply compare_bytes_prefix. exists [x64].
    split; [discriminate | reflexivity].
  - intros -> ->. rewrite Heq. f_equal. apply bool_decide_eq_true.
    apply compare_bytes_refl.
Qed.

(** C10: [compare] is antisymmetric, [a.compare(b) = - b.compare(a)], and
    reflexive, [a.compare(a) = 0]; exactly one of [a < b], [a == b] and
    [a > b] holds, and [a != b] is the negation of [a == b]. *)
Theorem compare_antisymmetric (m : Mem) (a b : String) (xs ys : list byte) :
  contents m a = Ok xs -> contents m b = Ok ys ->
  exists (r : Z) (lt eq gt ne : bool),
    compare m a b = Ok r /\
    compare m b a = Ok (- r) /\
    compare m a a = Ok 0 /\
    operator_lt m a b = Ok lt /\
    operator_eq m a b = Ok eq /\
    operator_gt m a b = Ok gt /\
    operator_ne m a b = Ok ne /\
    ((lt = true /\ eq = false /\ gt = false) \/
     (lt = false /\ eq = true /\ gt = false) \/
     (lt = false /\ eq = false /\ gt = true)) /\
    ne = negb eq.
Proof.
  intros Ha Hb.
  destruct (operators_contents _ _ _ _ _ Ha Hb) as (Hlt & Hgt & Heq & Hne).
  exists (compare_bytes xs ys).
  exists (bool_decide (compare_bytes xs ys = -1)),
         (bool_decide (compare_bytes xs ys = 0)),
         (bool_decide (compare_bytes xs ys = 1)),
         (bool_decide (compare_bytes xs ys <> 0)).
  split; [apply compare_contents; assumption|].
  split; [rewrite <- compare_bytes_antisym; apply compare_contents; assumption|].
  split; [rewrite <- (compare_bytes_refl xs); apply compare_contents; assumption|].
  do 4 (split; [assumption|]).
  destruct (compare_bytes_range xs ys) as [-> | [-> | ->]];
    (split; [|reflexivity]); auto 6.
Qed.

(** ** Which steps can halt the contract *)

Lemma no_abort_Ok {A : Type} (a : A) : no_abort (Ok a).
Proof. intros msg. discriminate. Qed.

Lemma no_abort_Fault {A : Type} : no_abort (@Fault A).
Proof. intros msg. discriminate. Qed.

Lemma no_abort_bind {A B : Type} (x : outcome A) (f : A -> outcome B) :
  no_abort x -> (forall a, no_abort (f a)) -> no_abort (x ≫= f).
Proof.
  intros Hx Hf. destruct x as [a|msg|]; simpl.
  - apply Hf.
  - exfalso. apply (Hx msg). reflexivity.
  - apply no_abort_Fault.
Qed.

Create HintDb no_abort.
#[local] Hint Resolve no_abort_Ok no_abort_Fault : no_abort.

Lemma no_abort_load (m : Mem) (p : ptr) : no_abort (load m p).
Proof.
  unfold load. repeat case_match; auto with no_abort.
Qed.

Lemma no_abort_read (m : Mem) (p : ptr) (n : Z) : no_abort (read m p n).
Proof.
  unfold read. repeat case_match; auto with no_abort.
Qed.

Lemma no_abort_write (m : Mem) (p : ptr) (bs : list byte) :
  no_abort (write m p bs).
Proof.
  unfold write. repeat case_match; auto with no_abort.
Qed.

Lemma no_abort_memcpy (m : Mem) (dst src : ptr) (n : Z) :
  no_abort (memcpy m dst src n).
Proof.
  unfold memcpy. apply no_abort_bind; [apply no_abort_read|].
  intros bs. apply no_abort_write.
Qed.

Lemma no_abort_free (m : Mem) (p : ptr) : no_abort (free m p).
Proof.
  unfold free. repeat case_match; auto with no_abort.
Qed.

Lemma no_abort_load_cell (m : Mem) (c : nat) : no_abort (load_cell m c).
Proof.
  unfold load_cell. case_match; auto with no_abort.
Qed.

Lemma no_abort_store_cell (m : Mem) (c : nat) (v : Z) :
  no_abort (store_cell m c v).
Proof.
  unfold store_cell. case_match; auto with no_abort.
Qed.

#[local] Hint Resolve no_abort_load no_abort_read no_abort_write
  no_abort_memcpy no_abort_free no_abort_load_cell no_abort_store_cell
  : no_abort.

Ltac no_abort_step :=
  first [ apply no_abort_bind; [|intros ?]
        | progress auto with no_abort
        | case_match ].

Lemma no_abort_new_refcount (m : Mem) : no_abort (new_refcount m).
Proof. unfold new_refcount, malloc_cell. repeat no_abort_step. Qed.

Lemma no_abort_incr_refcount (m : Mem) (r : option nat) :
  no_abort (incr_refcount m r).
Proof. unfold incr_refcount. repeat no_abort_step. Qed.

Lemma no_abort_release (m : Mem) (s : String) :
  no_abort (release_data_if_needed m s).
Proof. unfold release_data_if_needed. repeat no_abort_step. Qed.

Lemma no_abort_ends_with_nul (m : Mem) (s : String) :
  no_abort (ends_with_nul m s).
Proof. unfold ends_with_nul. repeat no_abort_step. Qed.

#[local] Hint Resolve no_abort_new_refcount no_abort_incr_refcount
  no_abort_release no_abort_ends_with_nul : no_abort.

Lemma no_abort_String_copy (m : Mem) (s : String) :
  no_abort (String_copy m s).
Proof. unfold String_copy. repeat no_abort_step. Qed.

Lemma no_abort_concat_build (m : Mem) (this str : String) :
  no_abort (concat_build m this str).
Proof. unfold concat_build, malloc. repeat no_abort_step. Qed.

Lemma no_abort_concat_adopt (this : String) (built : Mem * ptr * Z) :
  no_abort (concat_adopt this built).
Proof.
  destruct built as [[m2 nd] ns]. unfold concat_adopt.
  repeat no_abort_step.
Qed.

(** ** Concatenation: the overflow check *)

Lemma operator_plus_eq_phases (m : Mem) (this str : String) :
  operator_plus_eq m this str =
  if (size this <? wrap32 (size this + size str)) &&
     (size str <? wrap32 (size this + size str))
  then concat_build m this str ≫= concat_adopt this
  else Abort "overflow".
Proof.
  unfold operator_plus_eq, assert.
  destruct ((size this <? wrap32 (size this + size str)) &&
            (size str <? wrap32 (size this + size str))); [|reflexivity].
  simpl. unfold concat_build.
  destruct (ends_with_nul m this) as [[|]| |]; reflexivity.
Qed.

Lemma sum_exceeds_both_check (this str : String) :
  (size this <? wrap32 (size this + size str)) &&
  (size str <? wrap32 (size this + size str)) = true <->
  sum_exceeds_both this str.
Proof.
  unfold sum_exceeds_both. rewrite andb_true_iff, !Z.ltb_lt. reflexivity.
Qed.

Lemma operator_plus_eq_overflow (m : Mem) (this str : String) :
  operator_plus_eq m this str = Abort "overflow" <->
  ~ sum_exceeds_both this str.
Proof.
  rewrite operator_plus_eq_phases, <- sum_exceeds_both_check.
  destruct ((size this <? wrap32 (size this + size str)) &&
            (size str <? wrap32 (size this + size str))).
  - split; [|intros H; exfalso; apply H; reflexivity].
    intros H. exfalso. revert H.
    apply no_abort_bind; [apply no_abort_concat_build|].
    apply no_abort_concat_adopt.
  - split; [intros _; discriminate | reflexivity].
Qed.

Lemma String_copy_live (m : Mem) (s : String) :
  refcount_live m s ->
  exists m1, String_copy m s = Ok (m1, s) /\ blocks m1 = blocks m.
Proof.
  unfold refcount_live, String_copy, incr_refcount, load_cell, store_cell.
  destruct s as [sz d own [c|]]; simpl.
  - intros [v Hv]. rewrite Hv. simpl. rewrite ?Hv. simpl. eauto.
  - intros _. eauto.
Qed.

Lemma operator_plus_overflow (m : Mem) (lhs rhs : String) :
  refcount_live m lhs ->
  (operator_plus m lhs rhs = Abort "overflow" <->
   ~ sum_exceeds_both lhs rhs).
Proof.
  intros Hlive. destruct (String_copy_live _ _ Hlive) as (m1 & Hcopy & _).
  unfold operator_plus. rewrite Hcopy. simpl.
  rewrite <- (operator_plus_eq_overflow m1 lhs rhs).
  destruct (operator_plus_eq m1 lhs rhs) as [[m2 l']|msg|] eqn:Hpe; simpl.
  - split; [|discriminate]. intros H. exfalso. revert H.
    apply no_abort_bind; [apply no_abort_String_copy|]. intros [m3 r].
    apply no_abort_bind; [apply no_abort_release|]. intros m4.
    apply no_abort_Ok.
  - reflexivity.
  - split; discriminate.
Qed.

Lemma wrapped_sum_small (a b : Z) :
  is_uint32 a -> is_uint32 b -> 2 ^ 32 <= a + b ->
  wrap32 (a + b) < a /\ wrap32 (a + b) < b.
Proof.
  unfold is_uint32, wrap32. intros Ha Hb Hsum.
  assert ((a + b) mod 2 ^ 32 = a + b - 2 ^ 32) as ->; [|lia].
  symmetry. apply (Z.mod_unique_pos _ _ 1). lia. lia.
Qed.

(** C4: [+=] fails with "overflow" exactly when the unsigned sum
    [size + other.size] does not exceed both [size] and [other.size], and so
    does [+] on a left operand whose counter can be incremented; when the
    sum of the two sizes wraps past zero both halt on that assertion. *)
Theorem concat_overflow_iff (m : Mem) (this str : String) :
  (operator_plus_eq m this str = Abort "overflow" <->
   ~ (size this < wrap32 (size this + size str) /\
      size str < wrap32 (size this + size str))) /\
  (refcount_live m this ->
   (operator_plus m this str = Abort "overflow" <->
    ~ (size this < wrap32 (size this + size str) /\
       size str < wrap32 (size this + size str)))) /\
  (wf_String this -> wf_String str -> 2 ^ 32 <= size this + size str ->
   operator_plus_eq m this str = Abort "overflow" /\
   (refcount_live m this -> operator_plus m this str = Abort "overflow")).
Proof.
  split; [apply operator_plus_eq_overflow|].
  split; [apply operator_plus_overflow|].
  intros Ht Hs Hsum.
  destruct (wrapped_sum_small _ _ Ht Hs Hsum) as [H1 H2].
  assert (~ sum_exceeds_both this str) as Hno
    by (unfold sum_exceeds_both; lia).
  split; [apply operator_plus_eq_overflow; exact Hno|].
  intros Hlive. apply operator_plus_overflow; assumption.
Qed.

(** C9: when either operand has size 0 the sum does not wrap, yet [+=]
    halts on the "overflow" assertion, and so does [+]: appending an empty
    string, appending to an empty string and concatenating two empty
    strings all fail. *)
Theorem concat_empty_operand_fails (m : Mem) (this str : String) :
  wf_String this -> wf_String str ->
  size this = 0 \/ size str = 0 ->
  wrap32 (size this + size str) = size this + size str /\
  operator_plus_eq m this str = Abort "overflow" /\
  (refcount_live m this -> operator_plus m this str = Abort "overflow").
Proof.
  intros Ht Hs Hz.
  assert (wrap32 (size this + size str) = size this + size str) as Hsum.
  { apply wrap32_id. unfold wf_String, is_uint32 in *. lia. }
  assert (~ sum_exceeds_both this str) as Hno.
  { unfold sum_exceeds_both. rewrite Hsum. lia. }
  split; [exact Hsum|].
  split; [apply operator_plus_eq_overflow; exact Hno|].
  intros Hlive. apply operator_plus_overflow; assumption.
Qed.

(** ** Reading and writing blocks *)

Lemma read_mono (m m' : Mem) (p : ptr) (n : Z) (bs : list byte) :
  blocks m ⊆ blocks m' -> read m p n = Ok bs -> read m' p n = Ok bs.
Proof.
  intros Hsub. unfold read. destruct (n =? 0); [auto|].
  destruct p as [|b o]; [auto|].
  destruct (blocks m !! b) as [blk|] eqn:Hb; [|discriminate].
  rewrite (lookup_weaken _ _ _ _ Hb Hsub). auto.
Qed.

Lemma read_same_blocks (m m' : Mem) (p : ptr) (n : Z) :
  blocks m' = blocks m -> read m' p n = read m p n.
Proof. intros H. unfold read. rewrite H. reflexivity. Qed.

Lemma read_take (m : Mem) (p : ptr) (n k : Z) (bs : list byte) :
  read m p n = Ok bs -> 0 <= k <= n ->
  read m p k = Ok (take (Z.to_nat k) bs).
Proof.
  unfold read. intros H Hk.
  destruct (Z.eqb_spec k 0) as [->|Hk0]; [rewrite take_0; reflexivity|].
  destruct (Z.eqb_spec n 0) as [->|Hn0]; [lia|].
  destruct p as [|b o]; [discriminate|].
  destruct (blocks m !! b) as [blk|]; [|discriminate].
  destruct (Z.leb_spec 0 o); [|discriminate].
  destruct (Z.leb_spec 0 n); [|discriminate].
  destruct (Z.leb_spec (o + n) (Z.of_nat (length blk))); [|discriminate].
  simpl in H. injection H as <-.
  destruct (Z.leb_spec 0 k); [|lia].
  destruct (Z.leb_spec (o + k) (Z.of_nat (length blk))); [|lia].
  simpl. rewrite take_take. do 2 f_equal. lia.
Qed.

Lemma read_whole_block (m : Mem) (b : nat) (blk : list byte) :
  blocks m !! b = Some blk ->
  read m (Ptr b 0) (Z.of_nat (length blk)) = Ok blk.
Proof.
  intros Hb. unfold read.
  destruct (Z.eqb_spec (Z.of_nat (length blk)) 0) as [H0|H0].
  - destruct blk; [reflexivity | simpl in H0; lia].
  - rewrite Hb, Z.add_0_l.
    destruct (Z.leb_spec 0 (Z.of_nat (length blk))); [|lia].
    destruct (Z.leb_spec (Z.of_nat (length blk)) (Z.of_nat (length blk))); [|lia].
    simpl. rewrite Nat2Z.id, firstn_all. reflexivity.
Qed.

Lemma write_Ok (m : Mem) (b : nat) (o : Z) (blk new : list byte) :
  blocks m !! b = Some blk ->
  0 <= o -> o + Z.of_nat (length new) <= Z.of_nat (length blk) ->
  write m (Ptr b o) new =
  Ok (mkMem (<[b := take (Z.to_nat o) blk ++ new ++
                    drop (Z.to_nat o + length new) blk]> (blocks m))
            (cells m)).
Proof.
  intros Hb Ho Hlen. unfold write. destruct new as [|c new].
  - simpl. rewrite Nat.add_0_r, take_drop, insert_id by exact Hb.
    destruct m; reflexivity.
  - rewrite Hb.
    destruct (Z.leb_spec 0 o); [|lia].
    destruct (Z.leb_spec (o + Z.of_nat (length (c :: new)))
                         (Z.of_nat (length blk))); [|lia].
    reflexivity.
Qed.

Lemma write_Ok_inv (m m' : Mem) (b : nat) (o : Z) (blk new : list byte) :
  blocks m !! b = Some blk ->
  write m (Ptr b o) new = Ok m' ->
  m' = mkMem (<[b := take (Z.to_nat o) blk ++ new ++
                       drop (Z.to_nat o + length new) blk]> (blocks m))
             (cells m).
Proof.
  intros Hb. unfold write. destruct new as [|c new].
  - intros [= <-]. simpl.
    rewrite Nat.add_0_r, take_drop, insert_id by exact Hb.
    destruct m; reflexivity.
  - rewrite Hb. case_match; [|discriminate]. intros [= <-]. reflexivity.
Qed.

Lemma memcpy_Ok_inv (m m' : Mem) (b : nat) (o : Z) (blk : list byte)
    (src : ptr) (n : Z) :
  blocks m !! b = Some blk ->
  memcpy m (Ptr b o) src n = Ok m' ->
  exists blk', blocks m' = <[b := blk']> (blocks m) /\ cells m' = cells m.
Proof.
  intros Hb. unfold memcpy.
  destruct (read m src n) as [bs| |]; simpl; try discriminate.
  intros Hw. rewrite (write_Ok_inv _ _ _ _ _ _ Hb Hw). simpl. eauto.
Qed.

Lemma fresh_block (m : Mem) : blocks m !! fresh (dom (blocks m)) = None.
Proof. apply not_elem_of_dom. apply is_fresh. Qed.

Lemma fresh_cell (m : Mem) : cells m !! fresh (dom (cells m)) = None.
Proof. apply not_elem_of_dom. apply is_fresh. Qed.

Lemma two_copies {A : Type} (k : Mem -> outcome A) (m : Mem) (b : nat)
    (J r1 r2 : list byte) (src1 src2 : ptr) (o2 : Z) :
  blocks m !! b = None ->
  read m src1 (Z.of_nat (length r1)) = Ok r1 ->
  read m src2 (Z.of_nat (length r2)) = Ok r2 ->
  length J = (length r1 + length r2)%nat ->
  o2 = Z.of_nat (length r1) ->
  (m1 ← memcpy (mkMem (<[b := J]> (blocks m)) (cells m)) (Ptr b 0) src1
          (Z.of_nat (length r1));
   m2 ← memcpy m1 (Ptr b o2) src2 (Z.of_nat (length r2));
   k m2)
  = k (mkMem (<[b := r1 ++ r2]> (blocks m)) (cells m)).
Proof.
  intros Hfresh H1 H2 HJ ->. unfold memcpy.
  rewrite (read_mono m _ _ _ _ (insert_subseteq _ _ _ Hfresh) H1). simpl.
  rewrite (write_Ok _ b 0 J r1) by (simpl; rewrite ?lookup_insert_eq; lia || reflexivity).
  simpl. rewrite insert_insert_eq.
  rewrite (read_mono m _ _ _ _ (insert_subseteq _ _ _ Hfresh) H2). simpl.
  rewrite (write_Ok _ b _ (r1 ++ drop (length r1) J) r2).
  - simpl. rewrite insert_insert_eq. do 3 f_equal.
    rewrite Nat2Z.id, take_app_length.
    rewrite drop_ge; [rewrite app_nil_r; reflexivity|].
    rewrite length_app, length_drop. lia.
  - simpl. apply lookup_insert_eq.
  - lia.
  - rewrite length_app, length_drop. lia.
Qed.

(** ** Concatenation: the new buffer *)

Lemma sum_exceeds_no_wrap (this str : String) :
  wf_String this -> wf_String str -> sum_exceeds_both this str ->
  0 < size this /\ 0 < size str /\ size this + size str < 2 ^ 32.
Proof.
  unfold wf_String, sum_exceeds_both. intros Ht Hs [H1 H2].
  destruct (Z.lt_ge_cases (size this + size str) (2 ^ 32)) as [Hlt|Hge].
  - rewrite wrap32_id in H1, H2 by (unfold is_uint32 in *; lia). lia.
  - destruct (wrapped_sum_small _ _ Ht Hs Hge). lia.
Qed.

Lemma drop_final_nul_take (xs : list byte) :
  take (length (drop_final_nul xs)) xs = drop_final_nul xs.
Proof.
  unfold drop_final_nul. destruct (final_nul xs).
  - rewrite length_take. f_equal. lia.
  - apply firstn_all.
Qed.

Lemma read_drop_final_nul (m : Mem) (s : String) (xs : list byte) :
  contents m s = Ok xs ->
  read m (data s) (Z.of_nat (length (drop_final_nul xs)))
  = Ok (drop_final_nul xs).
Proof.
  intros Hc. pose proof (contents_inv _ _ _ Hc) as (_ & Hl & _).
  unfold contents in Hc.
  rewrite (read_take _ _ _ (Z.of_nat (length (drop_final_nul xs))) _ Hc).
  - rewrite Nat2Z.id, drop_final_nul_take. reflexivity.
  - rewrite length_drop_final_nul. destruct (final_nul xs); lia.
Qed.

Lemma concat_build_Ok (m : Mem) (this str : String) (xs ys : list byte) :
  wf_String this -> wf_String str ->
  contents m this = Ok xs -> contents m str = Ok ys ->
  sum_exceeds_both this str ->
  concat_build m this str =
  Ok (mkMem (<[fresh (dom (blocks m)) := drop_final_nul xs ++ ys]> (blocks m))
            (cells m),
      Ptr (fresh (dom (blocks m))) 0,
      if final_nul xs then size this - 1 + size str
      else size this + size str).
Proof.
  intros Ht Hs Hx Hy Hsum.
  destruct (sum_exceeds_no_wrap _ _ Ht Hs Hsum) as (Hpt & Hps & Hlt).
  pose proof (contents_inv _ _ _ Hx) as (_ & Hlx & _).
  pose proof (contents_inv _ _ _ Hy) as (_ & Hly & _).
  pose proof (read_drop_final_nul _ _ _ Hx) as Hr1.
  pose proof (length_drop_final_nul xs) as Hlen.
  unfold contents in Hy. rewrite <- Hly in Hy.
  unfold concat_build. rewrite (ends_with_nul_contents _ _ _ Hx). simpl.
  unfold malloc. rewrite !Z.mul_1_r.
  destruct (final_nul xs) eqn:Hf.
  - apply final_nul_nonempty in Hf.
    rewrite !(wrap32_id (size this - 1)) by (unfold is_uint32; lia).
    rewrite !(wrap32_id (size this - 1 + size str)) by (unfold is_uint32; lia).
    rewrite !(wrap32_id (size str)) by (unfold is_uint32; lia).
    replace (size this - 1) with (Z.of_nat (length (drop_final_nul xs))) by lia.
    rewrite <- Hly. simpl.
    rewrite (two_copies _ m _ _ (drop_final_nul xs) ys);
      [reflexivity | apply fresh_block | exact Hr1 | exact Hy | | lia].
    rewrite length_fmap, length_seq. lia.
  - rewrite !(wrap32_id (size this)) by (unfold is_uint32; lia).
    rewrite !(wrap32_id (size this + size str)) by (unfold is_uint32; lia).
    rewrite !(wrap32_id (size str)) by (unfold is_uint32; lia).
    replace (size this) with (Z.of_nat (length (drop_final_nul xs))) by lia.
    rewrite <- Hly. simpl.
    rewrite (two_copies _ m _ _ (drop_final_nul xs) ys);
      [reflexivity | apply fresh_block | exact Hr1 | exact Hy | | lia].
    rewrite length_fmap, length_seq. lia.
Qed.

(** ** Releasing a reference *)

Lemma free_Ok_inv (m m' : Mem) (p : ptr) :
  free m p = Ok m' ->
  cells m' = cells m /\
  ((p = nullptr /\ blocks m' = blocks m) \/
   (exists b, p = Ptr b 0 /\ is_Some (blocks m !! b) /\
              blocks m' = delete b (blocks m))).
Proof.
  unfold free. destruct p as [|b o].
  - intros [= <-]. auto.
  - destruct (Z.eqb_spec o 0) as [->|]; [|discriminate].
    destruct (blocks m !! b) as [blk|] eqn:Hb; [|discriminate].
    intros [= <-]. simpl. split; [reflexivity|]. right.
    exists b. rewrite Hb. eauto.
Qed.

Lemma release_unowned (m : Mem) (s : String) :
  own_memory s = false \/ refcount s = None ->
  release_data_if_needed m s = Ok m.
Proof.
  unfold release_data_if_needed.
  intros [-> | ->]; [reflexivity|]. destruct (own_memory s); reflexivity.
Qed.

Lemma release_owned (m : Mem) (s : String) (c : nat) (v : Z) :
  own_memory s = true -> refcount s = Some c -> cells m !! c = Some v ->
  release_data_if_needed m s =
  if wrap32 (v - 1) =? 0
  then free (mkMem (blocks m) (<[c := wrap32 (v - 1)]> (cells m))) (data s)
  else Ok (mkMem (blocks m) (<[c := wrap32 (v - 1)]> (cells m))).
Proof.
  intros Ho Hr Hv. unfold release_data_if_needed, load_cell, store_cell.
  rewrite Ho, Hr, Hv. simpl. rewrite ?Hv. simpl.
  rewrite lookup_insert_eq. reflexivity.
Qed.

Lemma release_Ok_inv (m m' : Mem) (s : String) :
  release_data_if_needed m s = Ok m' ->
  (m' = m /\ (own_memory s = false \/ refcount s = None)) \/
  (exists c v,
     own_memory s = true /\ refcount s = Some c /\ cells m !! c = Some v /\
     cells m' = <[c := wrap32 (v - 1)]> (cells m) /\
     ((wrap32 (v - 1) <> 0 /\ blocks m' = blocks m) \/
      (wrap32 (v - 1) = 0 /\ data s = nullptr /\ blocks m' = blocks m) \/
      (wrap32 (v - 1) = 0 /\
       exists b0, data s = Ptr b0 0 /\ is_Some (blocks m !! b0) /\
                  blocks m' = delete b0 (blocks m)))).
Proof.
  destruct (own_memory s) eqn:Ho.
  2:{ rewrite release_unowned by auto. intros [= <-]. auto. }
  destruct (refcount s) as [c|] eqn:Hr.
  2:{ rewrite release_unowned by auto. intros [= <-]. auto. }
  destruct (cells m !! c) as [v|] eqn:Hv.
  2:{ unfold release_data_if_needed, load_cell. rewrite Ho, Hr, Hv.
      discriminate. }
  rewrite (release_owned _ _ _ _ Ho Hr Hv).
  intros H. right. exists c, v. do 2 (split; [reflexivity|]).
  split; [exact Hv|].
  destruct (Z.eqb_spec (wrap32 (v - 1)) 0) as [Hz|Hnz].
  - apply free_Ok_inv in H as [Hc [[Hp Hb]|(b0 & Hp & Hs & Hb)]];
      simpl in *; (split; [exact Hc|]); right; [left | right]; eauto.
  - injection H as <-. simpl. auto.
Qed.

Lemma new_refcount_eq (m : Mem) :
  new_refcount m =
  Ok (mkMem (blocks m) (<[fresh (dom (cells m)) := 1]> (cells m)),
      fresh (dom (cells m))).
Proof.
  unfold new_refcount, malloc_cell, store_cell. simpl.
  rewrite lookup_insert_eq. simpl. rewrite insert_insert_eq. reflexivity.
Qed.

Lemma load_Ok_inv (m : Mem) (p : ptr) (c : byte) :
  load m p = Ok c ->
  exists b o, p = Ptr b o /\ is_Some (blocks m !! b).
Proof.
  unfold load. destruct p as [|b o]; [discriminate|].
  destruct (blocks m !! b) as [blk|] eqn:Hb; [|discriminate].
  intros _. exists b, o. rewrite Hb. eauto.
Qed.

Lemma contents_block (m : Mem) (s : String) (xs : list byte) :
  contents m s = Ok xs -> 0 < size s ->
  exists b o, data s = Ptr b o /\ is_Some (blocks m !! b).
Proof.
  unfold contents, read. intros H Hpos.
  destruct (Z.eqb_spec (size s) 0); [lia|].
  destruct (data s) as [|b o]; [discriminate|].
  destruct (blocks m !! b) as [blk|] eqn:Hb; [|discriminate].
  exists b, o. rewrite Hb. eauto.
Qed.

(** ** Concatenation: anatomy of a successful call *)

Lemma concat_build_inv (m m2 : Mem) (this str : String) (nd : ptr) (ns : Z) :
  0 < size this ->
  concat_build m this str = Ok (m2, nd, ns) ->
  nd = Ptr (fresh (dom (blocks m))) 0 /\
  cells m2 = cells m /\
  (exists final, blocks m2 = <[fresh (dom (blocks m)) := final]> (blocks m)) /\
  (exists b0 o, data this = Ptr b0 o /\ is_Some (blocks m !! b0)).
Proof.
  intros Hpos. unfold concat_build, ends_with_nul.
  destruct (Z.ltb_spec 0 (size this)); [|lia].
  destruct (load m _) as [c| |] eqn:Hload; simpl; try discriminate.
  apply load_Ok_inv in Hload as (b0 & o & Hp & Hsome).
  assert (exists b1 o1, data this = Ptr b1 o1 /\ is_Some (blocks m !! b1)) as Hdata.
  { destruct (data this) as [|b1 o1]; simpl in Hp; [discriminate|].
    injection Hp as -> _. eauto. }
  unfold malloc.
  destruct (Byte.eqb c x00); simpl;
    (destruct (memcpy _ (Ptr _ 0) _ _) as [m1| |] eqn:H1; simpl;
       try discriminate);
    (destruct (memcpy m1 _ _ _) as [m2'| |] eqn:H2; simpl; try discriminate);
    intros [= <- <- <-];
    (eapply memcpy_Ok_inv in H1 as (blk1 & Hb1 & Hc1);
       [|simpl; apply lookup_insert_eq]);
    (eapply memcpy_Ok_inv in H2 as (blk2 & Hb2 & Hc2);
       [|rewrite Hb1; apply lookup_insert_eq]);
    simpl in *;
    (split; [reflexivity|]); (split; [congruence|]);
    (split; [|exact Hdata]);
    exists blk2; rewrite Hb2, Hb1, !insert_insert_eq; reflexivity.
Qed.

Lemma operator_plus_eq_Ok_inv (m m' : Mem) (this str this' : String) :
  wf_String this -> wf_String str ->
  operator_plus_eq m this str = Ok (m', this') ->
  exists m2 m3 final,
    sum_exceeds_both this str /\
    concat_build m this str = Ok (m2, Ptr (fresh (dom (blocks m))) 0, size this') /\
    blocks m2 = <[fresh (dom (blocks m)) := final]> (blocks m) /\
    cells m2 = cells m /\
    release_data_if_needed m2 this = Ok m3 /\
    m' = mkMem (blocks m3) (<[fresh (dom (cells m3)) := 1]> (cells m3)) /\
    this' = mkString (size this') (Ptr (fresh (dom (blocks m))) 0) true
                     (Some (fresh (dom (cells m3)))) /\
    blocks m3 !! fresh (dom (blocks m)) = Some final /\
    (exists b0 o, data this = Ptr b0 o /\ is_Some (blocks m !! b0)).
Proof.
  intros Ht Hs. rewrite operator_plus_eq_phases.
  destruct ((size this <? wrap32 (size this + size str)) &&
            (size str <? wrap32 (size this + size str))) eqn:Hcheck;
    [|discriminate].
  apply sum_exceeds_both_check in Hcheck.
  destruct (sum_exceeds_no_wrap _ _ Ht Hs Hcheck) as (Hpos & _ & _).
  destruct (concat_build m this str) as [[[m2 nd] ns]| |] eqn:Hbuild;
    simpl; try discriminate.
  destruct (concat_build_inv _ _ _ _ _ _ Hpos Hbuild)
    as (-> & Hcells & (final & Hblocks) & (b0 & o & Hdata & Hlive)).
  destruct (release_data_if_needed m2 this) as [m3| |] eqn:Hrel;
    simpl; try discriminate.
  rewrite new_refcount_eq. simpl. intros [= <- <-]. simpl.
  exists m2, m3, final. do 7 (split; [first [assumption | reflexivity]|]).
  split; [|eauto].
  assert (b0 <> fresh (dom (blocks m))) as Hne.
  { intros ->. rewrite fresh_block in Hlive. destruct Hlive; discriminate. }
  apply release_Ok_inv in Hrel
    as [[-> _]|(c & v & _ & _ & _ & _ &
                [[_ Hb]|[(_ & _ & Hb)|(_ & b1 & Hd & _ & Hb)]])];
    rewrite ?Hb, Hblocks.
  - apply lookup_insert_eq.
  - apply lookup_insert_eq.
  - apply lookup_insert_eq.
  - rewrite Hdata in Hd. injection Hd as <- _.
    rewrite lookup_delete_ne by exact Hne. apply lookup_insert_eq.
Qed.

(** [+=] does succeed on readable operands that pass the check, as long as
    the release of the old reference can run: the left operand holds no
    counted reference, or its counter is a live cell and, if this was the
    last reference, its data is the start of a block. *)
Lemma operator_plus_eq_succeeds (m : Mem) (this str : String)
    (xs ys : list byte) :
  wf_String this -> wf_String str ->
  contents m this = Ok xs -> contents m str = Ok ys ->
  sum_exceeds_both this str ->
  (own_memory this = false \/ refcount this = None \/
   exists c v, refcount this = Some c /\ cells m !! c = Some v /\
               (wrap32 (v - 1) <> 0 \/ exists b, data this = Ptr b 0)) ->
  exists m' this', operator_plus_eq m this str = Ok (m', this').
Proof.
  intros Ht Hs Hx Hy Hsum Hrel.
  destruct (sum_exceeds_no_wrap _ _ Ht Hs Hsum) as (Hpos & _ & _).
  rewrite operator_plus_eq_phases.
  rewrite (proj2 (sum_exceeds_both_check this str) Hsum).
  rewrite (concat_build_Ok _ _ _ _ _ Ht Hs Hx Hy Hsum). simpl.
  set (m2 := mkMem _ _).
  assert (exists m3, release_data_if_needed m2 this = Ok m3) as [m3 H3].
  { destruct (own_memory this) eqn:Ho.
    2:{ exists m2. apply release_unowned. auto. }
    destruct Hrel as [Hf|[Hn|(c & v & Hr & Hv & Hcase)]].
    - congruence.
    - exists m2. apply release_unowned. auto.
    - rewrite (release_owned m2 this c v Ho Hr) by exact Hv.
      destruct (Z.eqb_spec (wrap32 (v - 1)) 0) as [Hz|Hnz]; [|eauto].
      destruct Hcase as [Hnz|[b Hd]]; [contradiction|].
      destruct (contents_block _ _ _ Hx Hpos) as (b0 & o & Hd0 & [blk Hb0]).
      rewrite Hd in Hd0. injection Hd0 as <- _.
      unfold free. rewrite Hd. simpl.
      rewrite lookup_insert_ne, Hb0; [eauto|].
      intros Heq. rewrite <- Heq, fresh_block in Hb0. discriminate. }
  rewrite H3. simpl. rewrite new_refcount_eq. simpl. eauto.
Qed.

(** ** Copies and the shared counter *)

Lemma String_eta (s : String) :
  mkString (size s) (data s) (own_memory s) (refcount s) = s.
Proof. destruct s; reflexivity. Qed.

Lemma Mem_eta (m : Mem) : mkMem (blocks m) (cells m) = m.
Proof. destruct m; reflexivity. Qed.

Lemma String_copy_counted (m : Mem) (s : String) (c : nat) (v : Z) :
  refcount s = Some c -> cells m !! c = Some v ->
  String_copy m s =
  Ok (mkMem (blocks m) (<[c := wrap32 (v + 1)]> (cells m)), s).
Proof.
  destruct s as [sz d own r]. simpl. intros -> Hv.
  unfold String_copy, incr_refcount, load_cell, store_cell. simpl.
  rewrite Hv. simpl. rewrite ?Hv. reflexivity.
Qed.

Lemma String_copy_uncounted (m : Mem) (s : String) :
  refcount s = None -> String_copy m s = Ok (m, s).
Proof.
  destruct s as [sz d own r]. simpl. intros ->. reflexivity.
Qed.

Lemma String_copy_Ok_inv (m m1 : Mem) (s s1 : String) :
  String_copy m s = Ok (m1, s1) ->
  s1 = s /\ blocks m1 = blocks m /\ refcount_live m s.
Proof.
  unfold refcount_live. destruct (refcount s) as [c|] eqn:Hr.
  - destruct (cells m !! c) as [v|] eqn:Hv.
    + rewrite (String_copy_counted _ _ _ _ Hr Hv). intros [= <- <-]. eauto.
    + unfold String_copy, incr_refcount, load_cell. rewrite Hr, Hv. discriminate.
  - rewrite (String_copy_uncounted _ _ Hr). intros [= <- <-]. auto.
Qed.

Lemma wrap32_incr_decr (v : Z) :
  is_uint32 v -> wrap32 (wrap32 (v + 1) - 1) = v.
Proof.
  unfold is_uint32, wrap32. intros Hv.
  destruct (Z.eq_dec (v + 1) (2 ^ 32)) as [He|Hne].
  - rewrite He, Z.mod_same by lia.
    symmetry. apply (Z.mod_unique_pos _ _ (-1)); lia.
  - rewrite (Z.mod_small (v + 1)) by lia.
    replace (v + 1 - 1) with v by lia. apply Z.mod_small. lia.
Qed.

Lemma copy_then_destroy (m : Mem) (s : String) (c : nat) (v : Z) :
  own_memory s = true -> refcount s = Some c -> cells m !! c = Some v ->
  is_uint32 v -> v <> 0 ->
  exists m1,
    String_copy m s = Ok (m1, s) /\
    blocks m1 = blocks m /\
    cells m1 !! c = Some (wrap32 (v + 1)) /\
    String_destroy m1 s = Ok m.
Proof.
  intros Ho Hr Hv Hu Hnz.
  exists (mkMem (blocks m) (<[c := wrap32 (v + 1)]> (cells m))).
  split; [apply String_copy_counted; assumption|].
  split; [reflexivity|]. split; [apply lookup_insert_eq|].
  unfold String_destroy.
  rewrite (release_owned _ _ c (wrap32 (v + 1)) Ho Hr)
    by apply lookup_insert_eq.
  rewrite wrap32_incr_decr by exact Hu. simpl.
  destruct (Z.eqb_spec v 0); [contradiction|].
  rewrite insert_insert_eq, insert_id by exact Hv.
  rewrite Mem_eta. reflexivity.
Qed.

Lemma operator_plus_Ok_inv (m m' : Mem) (lhs rhs r : String) :
  wf_String lhs -> wf_String rhs ->
  operator_plus m lhs rhs = Ok (m', r) ->
  exists m1,
    String_copy m lhs = Ok (m1, lhs) /\
    blocks m1 = blocks m /\
    operator_plus_eq m1 lhs rhs = Ok (m', r).
Proof.
  intros Hl Hr. unfold operator_plus.
  destruct (String_copy m lhs) as [[m1 l]| |] eqn:Hcopy; simpl; try discriminate.
  destruct (String_copy_Ok_inv _ _ _ _ Hcopy) as (-> & Hb1 & _).
  destruct (operator_plus_eq m1 lhs rhs) as [[m2 l']| |] eqn:Hpe;
    simpl; try discriminate.
  destruct (operator_plus_eq_Ok_inv _ _ _ _ _ Hl Hr Hpe)
    as (mb & m3 & final & _ & _ & _ & _ & _ & Hm2 & Hl' & _ & _).
  destruct (copy_then_destroy m2 l' (fresh (dom (cells m3))) 1)
    as (mc & Hc & _ & _ & Hd).
  - rewrite Hl'. reflexivity.
  - rewrite Hl'. reflexivity.
  - rewrite Hm2. simpl. apply lookup_insert_eq.
  - unfold is_uint32. lia.
  - lia.
  - rewrite Hc. simpl. rewrite Hd. simpl. intros [= <- <-]. eauto.
Qed.

(** ** Concatenation: the resulting bytes *)

Lemma operator_plus_eq_contents (m m' : Mem) (this str this' : String)
    (xs ys : list byte) :
  wf_String this -> wf_String str ->
  contents m this = Ok xs -> contents m str = Ok ys ->
  operator_plus_eq m this str = Ok (m', this') ->
  contents m' this' = Ok (drop_final_nul xs ++ ys) /\
  size this' = if final_nul xs then size this - 1 + size str
               else size this + size str.
Proof.
  intros Ht Hs Hx Hy Hpe.
  destruct (operator_plus_eq_Ok_inv _ _ _ _ _ Ht Hs Hpe)
    as (m2 & m3 & final & Hsum & Hbuild & Hb2 & _ & _ & Hm' & Hthis' & Hb3 & _).
  rewrite (concat_build_Ok _ _ _ _ _ Ht Hs Hx Hy Hsum) in Hbuild.
  injection Hbuild as Hm2 Hsize.
  assert (final = drop_final_nul xs ++ ys) as ->.
  { assert (blocks m2 !! fresh (dom (blocks m)) = Some final) as Hf
      by (rewrite Hb2; apply lookup_insert_eq).
    rewrite <- Hm2 in Hf. simpl in Hf. rewrite lookup_insert_eq in Hf.
    congruence. }
  split; [|symmetry; exact Hsize].
  assert (size this' = Z.of_nat (length (drop_final_nul xs ++ ys))) as Hlen.
  { pose proof (contents_inv _ _ _ Hx) as (_ & Hlx & _).
    pose proof (contents_inv _ _ _ Hy) as (_ & Hly & _).
    rewrite <- Hsize, length_app, length_drop_final_nul.
    destruct (final_nul xs) eqn:Hf; [apply final_nul_nonempty in Hf|]; lia. }
  unfold contents. rewrite Hthis'. simpl. rewrite Hlen.
  apply read_whole_block. rewrite Hm'. simpl. exact Hb3.
Qed.

(** C3: when [+=] (or [+]) succeeds, the resulting bytes are the left
    operand's bytes, without their final byte when that byte is zero,
    followed by the right operand's bytes; the resulting size is
    [size - 1 + other.size] in that case and [size + other.size] otherwise.
    The 3 bytes "ab" and zero followed by the 2 bytes "cd" give the 4 bytes
    "abcd". *)
Theorem concat_contents (m : Mem) (this str : String) (xs ys : list byte) :
  wf_String this -> wf_String str ->
  contents m this = Ok xs -> contents m str = Ok ys ->
  (final_nul xs = true <-> last xs = Some x00) /\
  (forall m' this',
     operator_plus_eq m this str = Ok (m', this') ->
     contents m' this' =
       Ok ((if final_nul xs then take (length xs - 1) xs else xs) ++ ys) /\
     size this' = (if final_nul xs then size this - 1 + size str
                   else size this + size str) /\
     (xs = [x61; x62; x00] -> ys = [x63; x64] ->
      contents m' this' = Ok [x61; x62; x63; x64] /\ size this' = 4)) /\
  (forall m' r,
     operator_plus m this str = Ok (m', r) ->
     contents m' r =
       Ok ((if final_nul xs then take (length xs - 1) xs else xs) ++ ys) /\
     size r = (if final_nul xs then size this - 1 + size str
               else size this + size str) /\
     (xs = [x61; x62; x00] -> ys = [x63; x64] ->
      contents m' r = Ok [x61; x62; x63; x64] /\ size r = 4)).
Proof.
  intros Ht Hs Hx Hy. split; [apply final_nul_true|].
  assert (forall m0 m' this',
            blocks m0 = blocks m ->
            operator_plus_eq m0 this str = Ok (m', this') ->
            contents m' this' =
              Ok ((if final_nul xs then take (length xs - 1) xs else xs) ++ ys) /\
            size this' = (if final_nul xs then size this - 1 + size str
                          else size this + size str) /\
            (xs = [x61; x62; x00] -> ys = [x63; x64] ->
             contents m' this' = Ok [x61; x62; x63; x64] /\ size this' = 4))
    as Hgen.
  { intros m0 m' this' Hb Hpe.
    assert (contents m0 this = Ok xs) as Hx0
      by (unfold contents; rewrite (read_same_blocks m m0) by exact Hb; exact Hx).
    assert (contents m0 str = Ok ys) as Hy0
      by (unfold contents; rewrite (read_same_blocks m m0) by exact Hb; exact Hy).
    destruct (operator_plus_eq_contents _ _ _ _ _ _ _ Ht Hs Hx0 Hy0 Hpe)
      as [Hc Hsz].
    pose proof (contents_inv _ _ _ Hx) as (_ & Hlx & _).
    pose proof (contents_inv _ _ _ Hy) as (_ & Hly & _).
    split; [exact Hc|]. split; [exact Hsz|].
    intros -> ->. rewrite Hc, Hsz. simpl in *. split; [reflexivity | lia]. }
  split.
  - intros m' this' Hpe. apply (Hgen m); [reflexivity | exact Hpe].
  - intros m' r Hp.
    destruct (operator_plus_Ok_inv _ _ _ _ _ Ht Hs Hp) as (m1 & _ & Hb & Hpe).
    apply (Hgen m1); assumption.
Qed.

(** ** Concatenation: what happens to the old allocation *)

Lemma read_lookup (m m' : Mem) (b : nat) (o n : Z) :
  blocks m' !! b = blocks m !! b ->
  read m' (Ptr b o) n = read m (Ptr b o) n.
Proof. intros H. unfold read. rewrite H. reflexivity. Qed.

Lemma read_freed (m : Mem) (b : nat) (o n : Z) :
  blocks m !! b = None -> n <> 0 -> read m (Ptr b o) n = Fault.
Proof.
  intros H Hn. unfold read. rewrite H.
  destruct (Z.eqb_spec n 0); [contradiction | reflexivity].
Qed.

Lemma fresh_cell_ne (cs : gmap nat Z) (c0 : nat) :
  is_Some (cs !! c0) -> fresh (dom cs) <> c0.
Proof.
  intros Hs Heq. apply elem_of_dom in Hs. rewrite <- Heq in Hs.
  exact (is_fresh _ Hs).
Qed.

Lemma release_cells_dom (m m' : Mem) (s : String) (c : nat) :
  release_data_if_needed m s = Ok m' ->
  is_Some (cells m !! c) -> is_Some (cells m' !! c).
Proof.
  intros Hrel Hs.
  apply release_Ok_inv in Hrel as [[-> _]|(c0 & v & _ & _ & Hv & Hc & _)];
    [exact Hs|].
  rewrite Hc. destruct (decide (c0 = c)) as [->|Hne].
  - rewrite lookup_insert_eq. eauto.
  - rewrite lookup_insert_ne by exact Hne. exact Hs.
Qed.

Lemma operator_plus_eq_old_block (m m' : Mem) (this str this' : String)
    (b0 : nat) (blk : list byte) :
  wf_String this -> wf_String str ->
  operator_plus_eq m this str = Ok (m', this') ->
  blocks m !! b0 = Some blk ->
  blocks m' !! b0 = Some blk \/
  (blocks m' !! b0 = None /\ data this = Ptr b0 0 /\
   last_reference_dropped m' this).
Proof.
  intros Ht Hs Hpe Hb0.
  destruct (operator_plus_eq_Ok_inv _ _ _ _ _ Ht Hs Hpe)
    as (m2 & m3 & final & _ & _ & Hb2 & Hc2 & Hrel & -> & _ & _ & _).
  simpl.
  assert (blocks m2 !! b0 = Some blk) as Hb0'.
  { rewrite Hb2, lookup_insert_ne; [exact Hb0|].
    intros Heq. rewrite <- Heq, fresh_block in Hb0. discriminate. }
  apply release_Ok_inv in Hrel
    as [[-> _]|(c0 & v & Ho & Hr & Hv & Hc &
                [[_ Hb]|[(_ & _ & Hb)|(Hz & b1 & Hd & _ & Hb)]])];
    rewrite ?Hb; auto.
  destruct (decide (b1 = b0)) as [->|Hne].
  - right. rewrite lookup_delete_eq. split; [reflexivity|].
    split; [exact Hd|]. split; [exact Ho|]. exists c0. split; [exact Hr|].
    simpl. rewrite lookup_insert_ne.
    + rewrite Hc, lookup_insert_eq, Hz. reflexivity.
    + apply fresh_cell_ne. rewrite Hc, lookup_insert_eq. eauto.
  - left. rewrite lookup_delete_ne by exact Hne. exact Hb0'.
Qed.

(** C8: a successful [+=] leaves the left operand with a freshly allocated
    buffer, [own_memory] true and a fresh counter equal to 1; the reference
    it held before is released (counter decremented, data freed only when
    the counter reaches zero) on the memory in which the new buffer is
    already complete; the bytes of the old blocks, as any other string sees
    them, are never changed: a block either keeps its bytes or is the freed
    data of the left operand. *)
Theorem concat_fresh_buffer (m m' : Mem) (this str this' : String) :
  wf_String this -> wf_String str ->
  operator_plus_eq m this str = Ok (m', this') ->
  own_memory this' = true /\
  (exists b final,
     data this' = Ptr b 0 /\ blocks m !! b = None /\
     blocks m' !! b = Some final) /\
  (exists c,
     refcount this' = Some c /\ cells m !! c = None /\
     get_refcount m' this' = Ok 1) /\
  (exists m2 m3 b,
     concat_build m this str = Ok (m2, data this', size this') /\
     data this' = Ptr b 0 /\
     cells m2 = cells m /\
     blocks m2 !! b = blocks m' !! b /\
     release_data_if_needed m2 this = Ok m3 /\
     blocks m' = blocks m3) /\
  (forall c0 v,
     own_memory this = true -> refcount this = Some c0 ->
     cells m !! c0 = Some v ->
     cells m' !! c0 = Some (wrap32 (v - 1)) /\
     (wrap32 (v - 1) <> 0 ->
      forall b0 blk, blocks m !! b0 = Some blk -> blocks m' !! b0 = Some blk)) /\
  (own_memory this = false \/ refcount this = None ->
   forall b0 blk, blocks m !! b0 = Some blk -> blocks m' !! b0 = Some blk) /\
  (forall b0 blk,
     blocks m !! b0 = Some blk ->
     blocks m' !! b0 = Some blk \/
     (blocks m' !! b0 = None /\ data this = Ptr b0 0 /\
      last_reference_dropped m' this)) /\
  (forall view bs,
     contents m view = Ok bs ->
     contents m' view = Ok bs \/
     (contents m' view = Fault /\ last_reference_dropped m' this)).
Proof.
  intros Ht Hs Hpe.
  pose proof (fun b0 blk =>
                operator_plus_eq_old_block _ _ _ _ _ b0 blk Ht Hs Hpe) as Hold.
  destruct (operator_plus_eq_Ok_inv _ _ _ _ _ Ht Hs Hpe)
    as (m2 & m3 & final & _ & Hbuild & Hb2 & Hc2 & Hrel & Hm' & Hthis' & Hb3 & _).
  assert (forall c0, is_Some (cells m !! c0) ->
                     fresh (dom (cells m3)) <> c0) as Hfresh.
  { intros c0 Hc0. apply fresh_cell_ne.
    apply (release_cells_dom _ _ _ _ Hrel). rewrite Hc2. exact Hc0. }
  split; [rewrite Hthis'; reflexivity|].
  split.
  { exists (fresh (dom (blocks m))), final. rewrite Hthis', Hm'. simpl.
    split; [reflexivity|]. split; [apply fresh_block | exact Hb3]. }
  split.
  { exists (fresh (dom (cells m3))). rewrite Hthis', Hm'.
    unfold get_refcount, load_cell. simpl. rewrite lookup_insert_eq.
    split; [reflexivity|]. split; [|reflexivity].
    destruct (cells m !! fresh (dom (cells m3))) as [v|] eqn:Hv;
      [|reflexivity].
    exfalso. apply (Hfresh (fresh (dom (cells m3)))); [eauto | reflexivity]. }
  split.
  { exists m2, m3, (fresh (dom (blocks m))). rewrite Hthis', Hm'. simpl.
    split; [rewrite Hthis' in Hbuild; exact Hbuild|].
    split; [reflexivity|]. split; [exact Hc2|].
    split; [rewrite Hb2, lookup_insert_eq, Hb3; reflexivity|].
    split; [exact Hrel | reflexivity]. }
  split.
  { intros c0 v Ho Hr Hv.
    assert (cells m' !! c0 = cells m3 !! c0) as Hc'.
    { rewrite Hm'. simpl. apply lookup_insert_ne. apply Hfresh. eauto. }
    apply release_Ok_inv in Hrel
      as [[_ [Hf|Hn]]|(c1 & v1 & _ & Hr1 & Hv1 & Hc3 & Hcase)];
      [congruence | congruence |].
    rewrite Hr in Hr1. injection Hr1 as <-.
    rewrite Hc2, Hv in Hv1. injection Hv1 as <-.
    split; [rewrite Hc', Hc3; apply lookup_insert_eq|].
    intros Hnz b0 blk Hb0.
    destruct (Hold b0 blk Hb0) as [Hk|(_ & _ & _ & c2 & Hr2 & Hz)];
      [exact Hk|].
    exfalso. rewrite Hr in Hr2. injection Hr2 as <-.
    rewrite Hc', Hc3, lookup_insert_eq in Hz. congruence. }
  split.
  { intros Hun b0 blk Hb0.
    destruct (Hold b0 blk Hb0) as [Hk|(_ & _ & Ho & c2 & Hr2 & _)];
      [exact Hk|].
    destruct Hun; congruence. }
  split; [exact Hold|].
  intros view bs Hview. unfold contents in *.
  destruct (Z.eq_dec (size view) 0) as [Hz|Hnz].
  { left. rewrite Hz in *. exact Hview. }
  destruct (data view) as [|bv o] eqn:Hdv.
  { unfold read in Hview. destruct (Z.eqb_spec (size view) 0);
      [contradiction | discriminate]. }
  destruct (blocks m !! bv) as [blk|] eqn:Hbv.
  - destruct (Hold bv blk Hbv) as [Hk|(Hnone & _ & Hdrop)].
    + left. rewrite (read_lookup m m') by congruence. exact Hview.
    + right. split; [apply read_freed; assumption | exact Hdrop].
  - rewrite read_freed in Hview by assumption. discriminate.
Qed.

(** ** Substrings *)

Lemma no_abort_assign (m : Mem) (this : String) (d : ptr) (n : Z) (copy : bool) :
  no_abort (assign m this d n copy).
Proof. unfold assign, malloc. repeat no_abort_step. Qed.

Lemma substr_check (raw : String) (m : Mem) (this : String)
    (offset n : Z) (copy : bool) :
  substr raw m this offset n copy =
  if (offset <? size this) && (wrap32 (offset + n) <? size this)
  then String_from raw m (ptr_add (data this) offset) n copy
  else Abort "out of bound".
Proof.
  unfold substr, assert.
  destruct ((offset <? size this) && (wrap32 (offset + n) <? size this));
    reflexivity.
Qed.

(** The check of [substr], with the sum as the code computes it. *)
Lemma substr_out_of_bound_iff (raw : String) (m : Mem) (this : String)
    (offset n : Z) (copy : bool) :
  substr raw m this offset n copy = Abort "out of bound" <->
  size this <= offset \/ size this <= wrap32 (offset + n).
Proof.
  rewrite substr_check.
  destruct (Z.ltb_spec offset (size this)),
           (Z.ltb_spec (wrap32 (offset + n)) (size this)); simpl;
    try (split; [intros _; lia | reflexivity]).
  split; [|lia]. intros Hab. exfalso. revert Hab. apply no_abort_assign.
Qed.

(** As long as [offset + substr_size] fits in 32 bits, [substr] fails
    exactly on [offset >= size] or [offset + substr_size >= size]. *)
Lemma substr_out_of_bound_no_wrap (raw : String) (m : Mem) (this : String)
    (offset n : Z) (copy : bool) :
  is_uint32 offset -> is_uint32 n -> offset + n < 2 ^ 32 ->
  (substr raw m this offset n copy = Abort "out of bound" <->
   offset >= size this \/ offset + n >= size this).
Proof.
  intros Ho Hn Hsum. rewrite substr_out_of_bound_iff.
  rewrite wrap32_id by (unfold is_uint32 in *; lia). lia.
Qed.

(** When the check passes [substr] is the from-pointer constructor on
    [data + offset] and [substr_size]. *)
Lemma substr_in_bound (raw : String) (m : Mem) (this : String)
    (offset n : Z) (copy : bool) :
  offset < size this -> wrap32 (offset + n) < size this ->
  substr raw m this offset n copy =
  String_from raw m (ptr_add (data this) offset) n copy.
Proof.
  intros H1 H2. rewrite substr_check.
  destruct (Z.ltb_spec offset (size this)); [|lia].
  destruct (Z.ltb_spec (wrap32 (offset + n)) (size this)); [|lia].
  reflexivity.
Qed.

Lemma String_from_view (raw : String) (m : Mem) (d : ptr) (n : Z) :
  own_memory raw = false \/ refcount raw = None ->
  String_from raw m d n false = Ok (m, mkString n d false None).
Proof.
  intros Hraw. unfold String_from, assign.
  rewrite release_unowned by exact Hraw. reflexivity.
Qed.

(** ** The reference-counting protocol *)

Lemma release_then_contents (m m' : Mem) (s : String) :
  release_data_if_needed m s = Ok m' ->
  blocks m' = blocks m \/
  (exists c, own_memory s = true /\ refcount s = Some c /\
             cells m' !! c = Some 0).
Proof.
  intros Hrel.
  apply release_Ok_inv in Hrel
    as [[-> _]|(c & v & Ho & Hr & _ & Hc &
                [[_ Hb]|[(_ & _ & Hb)|(Hz & _)]])]; auto.
  right. exists c. rewrite Hc, lookup_insert_eq, Hz. auto.
Qed.

Lemma incr_refcount_Ok_inv (m m' : Mem) (r : option nat) :
  incr_refcount m r = Ok m' ->
  blocks m' = blocks m /\
  (r = None -> m' = m) /\
  (forall c v, r = Some c -> cells m !! c = Some v ->
               cells m' = <[c := wrap32 (v + 1)]> (cells m)).
Proof.
  unfold incr_refcount, load_cell, store_cell. destruct r as [c|].
  - destruct (cells m !! c) as [v|] eqn:Hv; simpl; [|discriminate].
    rewrite ?Hv. simpl. intros [= <-]. simpl.
    split; [reflexivity|]. split; [discriminate|].
    intros c' v' [= <-] Hv'. congruence.
  - intros [= <-]. split; [reflexivity|]. split; [reflexivity|]. discriminate.
Qed.

End Methods.

(** ** Concrete runs *)

Lemma strlen_spec_witness :
  wf_String demo_ab0 /\
  contents demo_mem demo_ab0 = Ok [x61; x62; x00] /\
  strlen demo_mem demo_ab0 = Ok 2.
Proof.
  assert (wf_String demo_ab0) as Hwf by (unfold wf_String, is_uint32; simpl; lia).
  assert (contents demo_mem demo_ab0 = Ok [x61; x62; x00]) as Hc by reflexivity.
  split; [exact Hwf|]. split; [exact Hc|].
  apply (strlen_spec demo_mem demo_ab0 _ Hwf Hc); [simpl; lia | reflexivity].
Defined.

Lemma strlenUTF8_spec_witness :
  wf_String demo_hello_utf8 /\
  contents demo_mem demo_hello_utf8 = Ok [x68; xc3; xa9; x6c; x6c; x6f] /\
  strlenUTF8 demo_mem demo_hello_utf8 = Ok 5.
Proof.
  assert (wf_String demo_hello_utf8) as Hwf
    by (unfold wf_String, is_uint32; simpl; lia).
  assert (contents demo_mem demo_hello_utf8
          = Ok [x68; xc3; xa9; x6c; x6c; x6f]) as Hc by reflexivity.
  split; [exact Hwf|]. split; [exact Hc|].
  exact (proj1 (proj2 (proj2 (strlenUTF8_spec demo_mem demo_hello_utf8 _ Hwf Hc)))
           eq_refl).
Defined.

Lemma compare_antisymmetric_witness :
  contents demo_mem demo_ab0 = Ok [x61; x62; x00] /\
  contents demo_mem demo_cd = Ok [x63; x64] /\
  exists r : Z,
    compare true demo_mem demo_ab0 demo_cd = Ok r /\
    compare true demo_mem demo_cd demo_ab0 = Ok (- r).
Proof.
  assert (contents demo_mem demo_ab0 = Ok [x61; x62; x00]) as Ha by reflexivity.
  assert (contents demo_mem demo_cd = Ok [x63; x64]) as Hb by reflexivity.
  split; [exact Ha|]. split; [exact Hb|].
  destruct (compare_antisymmetric true demo_mem demo_ab0 demo_cd _ _ Ha Hb)
    as (r & lt & eq & gt & ne & Hr & Hr' & _).
  exists r. split; [exact Hr | exact Hr'].
Defined.

Lemma concat_contents_witness :
  exists m' this',
    wf_String demo_ab0 /\ wf_String demo_cd /\
    contents demo_mem demo_ab0 = Ok [x61; x62; x00] /\
    contents demo_mem demo_cd = Ok [x63; x64] /\
    operator_plus_eq zero_junk demo_mem demo_ab0 demo_cd = Ok (m', this') /\
    contents m' this' = Ok [x61; x62; x63; x64] /\
    size this' = 4.
Proof.
  assert (wf_String demo_ab0) as Ht by (unfold wf_String, is_uint32; simpl; lia).
  assert (wf_String demo_cd) as Hs by (unfold wf_String, is_uint32; simpl; lia).
  assert (contents demo_mem demo_ab0 = Ok [x61; x62; x00]) as Ha by reflexivity.
  assert (contents demo_mem demo_cd = Ok [x63; x64]) as Hb by reflexivity.
  destruct (operator_plus_eq zero_junk demo_mem demo_ab0 demo_cd)
    as [[m' this']| |] eqn:Hpe; [|vm_compute in Hpe; discriminate..].
  exists m', this'. do 4 (split; [assumption|]). split; [reflexivity|].
  destruct (concat_contents zero_junk demo_mem demo_ab0 demo_cd _ _ Ht Hs Ha Hb)
    as (_ & Hpe' & _).
  destruct (Hpe' m' this' Hpe) as (_ & _ & Hex).
  apply Hex; reflexivity.
Defined.

Lemma concat_overflow_iff_witness :
  wf_String demo_huge /\ wf_String demo_cd /\
  2 ^ 32 <= size demo_huge + size demo_cd /\
  refcount_live demo_mem demo_huge /\
  operator_plus_eq zero_junk demo_mem demo_huge demo_cd = Abort "overflow" /\
  operator_plus zero_junk demo_mem demo_huge demo_cd = Abort "overflow".
Proof.
  assert (wf_String demo_huge) as Ht by (unfold wf_String, is_uint32; simpl; lia).
  assert (wf_String demo_cd) as Hs by (unfold wf_String, is_uint32; simpl; lia).
  assert (2 ^ 32 <= size demo_huge + size demo_cd) as Hsum by (simpl; lia).
  assert (refcount_live demo_mem demo_huge) as Hlive by exact I.
  do 4 (split; [assumption|]).
  destruct (concat_overflow_iff zero_junk demo_mem demo_huge demo_cd)
    as (_ & _ & Hwrap).
  destruct (Hwrap Ht Hs Hsum) as [Hpe Hp].
  split; [exact Hpe | exact (Hp Hlive)].
Defined.

Lemma concat_empty_operand_fails_witness :
  wf_String demo_cd /\ wf_String String_default /\
  (size demo_cd = 0 \/ size String_default = 0) /\
  operator_plus_eq zero_junk demo_mem demo_cd String_default = Abort "overflow".
Proof.
  assert (wf_String demo_cd) as Ht by (unfold wf_String, is_uint32; simpl; lia).
  assert (wf_String String_default) as Hs
    by (unfold wf_String, is_uint32; simpl; lia).
  assert (size demo_cd = 0 \/ size String_default = 0) as Hz
    by (right; reflexivity).
  do 3 (split; [assumption|]).
  exact (proj1 (proj2 (concat_empty_operand_fails zero_junk demo_mem demo_cd
                         String_default Ht Hs Hz))).
Defined.

Lemma concat_fresh_buffer_witness :
  exists m' this',
    wf_String demo_ab0 /\ wf_String demo_cd /\
    operator_plus_eq zero_junk demo_mem demo_ab0 demo_cd = Ok (m', this') /\
    own_memory this' = true /\
    (exists c, refcount this' = Some c /\ cells demo_mem !! c = None /\
               get_refcount m' this' = Ok 1).
Proof.
  assert (wf_String demo_ab0) as Ht by (unfold wf_String, is_uint32; simpl; lia).
  assert (wf_String demo_cd) as Hs by (unfold wf_String, is_uint32; simpl; lia).
  destruct (operator_plus_eq zero_junk demo_mem demo_ab0 demo_cd)
    as [[m' this']| |] eqn:Hpe; [|vm_compute in Hpe; discriminate..].
  exists m', this'. do 2 (split; [assumption|]). split; [reflexivity|].
  destruct (concat_fresh_buffer zero_junk demo_mem m' demo_ab0 demo_cd this'
              Ht Hs Hpe) as (Hown & _ & Hcount & _).
  split; [exact Hown | exact Hcount].
Defined.

(** C1 (the code at the failing input): on the 5 bytes "hello", [substr]
    with offset 1 and length 4294967295 passes the bound check, because the
    32-bit sum wraps to 0, and returns a view of 4294967295 bytes from
    [data + 1], which reaches far past the 5 bytes of the buffer. *)
Theorem substr_wraparound_accepted :
  size demo_hello <= 1 + 4294967295 /\
  wrap32 (1 + 4294967295) = 0 /\
  substr zero_junk String_default demo_mem demo_hello 1 4294967295 false =
    Ok (demo_mem, mkString 4294967295 (Ptr 3 1) false None) /\
  contents demo_mem (mkString 4294967295 (Ptr 3 1) false None) = Fault.
Proof.
  split; [simpl; lia|]. split; [reflexivity|]. split; reflexivity.
Qed.

(** Self-assignment of the only owner of block 0: the counter is neither
    decremented nor incremented, and the block stays allocated. *)
Example self_assignment_is_noop :
  operator_assign demo_mem (<[0%nat := demo_ab0]> ∅) 0%nat 0%nat
  = Ok (demo_mem, <[0%nat := demo_ab0]> ∅) /\
  get_refcount demo_mem demo_ab0 = Ok 1.
Proof. split; reflexivity. Qed.

(** Assignment of the owner of block 0 to a default-constructed string at
    another address: the target aliases the source and the counter is 2. *)
Example copy_assignment_increments :
  exists m',
    operator_assign demo_mem
      (<[1%nat := String_default]> (<[0%nat := demo_ab0]> ∅)) 1%nat 0%nat
    = Ok (m', <[1%nat := demo_ab0]> (<[0%nat := demo_ab0]> ∅)) /\
    get_refcount m' demo_ab0 = Ok 2 /\
    blocks m' = blocks demo_mem.
Proof. eexists. split; [vm_compute; reflexivity|]. split; reflexivity. Qed.

(** The boundary of [substr] on the 5 bytes "hello": offset 2 and length 3
    reach the end of the buffer and are rejected; offset 2 and length 2 give
    a non-owning view of the same block. *)
Example substr_boundary :
  substr zero_junk String_default demo_mem demo_hello 2 3 false
  = Abort "out of bound" /\
  substr zero_junk String_default demo_mem demo_hello 2 2 false
  = Ok (demo_mem, mkString 2 (Ptr 3 2) false None) /\
  contents demo_mem (mkString 2 (Ptr 3 2) false None) = Ok [x6c; x6c].
Proof. repeat split; reflexivity. Qed.

(** With a signed [char] the byte 0xC3 compares below "z"; with an unsigned
    [char] it compares above. *)
Example compare_depends_on_char_signedness :
  compare_bytes true [xc3] [x7a] = -1 /\
  compare_bytes false [xc3] [x7a] = 1.
Proof. split; reflexivity. Qed.

(** * The rest of the class *)

(** ** Output *)

(** The bytes of a C string held in [l]: those before the first zero byte.
    Running off the end of [l] without meeting one is a fault. *)
Fixpoint c_string (l : list byte) : outcome (list byte) :=
  match l with
  | [] => Fault
  | c :: t => if Byte.eqb c x00 then Ok [] else r ← c_string t; Ok (c :: r)
  end.

(** Modelled from the spec: the output sink of eoslib/print.hpp is not in
    the sources.  [prints] is its null-terminated write path: it consumes
    the bytes from [p] up to the first zero byte of the block.  The result
    is the run of bytes handed to the console. *)
Definition prints (m : Mem) (p : ptr) : outcome (list byte) :=
  match p with
  | nullptr => Fault
  | Ptr b o =>
      match blocks m !! b with
      | Some blk => if 0 <=? o then c_string (drop (Z.to_nat o) blk) else Fault
      | None => Fault
      end
  end.

(** Modelled from the spec: the explicit-length write path of the same
    sink, which consumes exactly [n] bytes from [p]. *)
Definition prints_l (m : Mem) (p : ptr) (n : Z) : outcome (list byte) :=
  read m p n.

(** [print] *)
Definition print (m : Mem) (this : String) : outcome (list byte) :=
  z ← ends_with_nul m this;
  if (z : bool) then prints m (data this)
  else prints_l m (data this) (size this).

(** The bytes of [l] before its first zero byte. *)
Fixpoint before_nul (l : list byte) : list byte :=
  match l with
  | [] => []
  | c :: t => if Byte.eqb c x00 then [] else c :: before_nul t
  end.

Lemma final_nul_cons (c : byte) (t : list byte) :
  t <> [] -> final_nul (c :: t) = final_nul t.
Proof.
  intros Ht. unfold final_nul. destruct t as [|d t]; [contradiction|].
  reflexivity.
Qed.

Lemma c_string_app (bs rest : list byte) :
  final_nul bs = true -> c_string (bs ++ rest) = Ok (before_nul bs).
Proof.
  induction bs as [|c t IH]; [discriminate|].
  intros Hf. simpl. destruct (Byte.eqb c x00) eqn:Hc; [reflexivity|].
  destruct t as [|d t'].
  - unfold final_nul in Hf. simpl in Hf. congruence.
  - rewrite final_nul_cons in Hf by discriminate.
    rewrite (IH Hf). reflexivity.
Qed.

Lemma contents_slice (m : Mem) (s : String) (bs : list byte) :
  contents m s = Ok bs -> 0 < size s ->
  exists b o blk,
    data s = Ptr b o /\ blocks m !! b = Some blk /\ 0 <= o /\
    bs = take (Z.to_nat (size s)) (drop (Z.to_nat o) blk).
Proof.
  unfold contents, read. intros H Hpos.
  destruct (Z.eqb_spec (size s) 0); [lia|].
  destruct (data s) as [|b o]; [discriminate|].
  destruct (blocks m !! b) as [blk|] eqn:Hb; [|discriminate].
  destruct (Z.leb_spec 0 o); [|discriminate].
  destruct (Z.leb_spec 0 (size s)); [|discriminate].
  destruct (Z.leb_spec (o + size s) (Z.of_nat (length blk))); [|discriminate].
  simpl in H. injection H as <-. exists b, o, blk. auto.
Qed.

(** X1: on a string whose bytes are readable [print] never faults.  When
    the last byte is not zero it hands all [size] bytes to the sink; when it
    is, the sink receives the bytes before the first zero byte, so a zero
    byte inside the string cuts the output short, and without one the
    output is everything but the terminator. *)
Theorem print_spec (m : Mem) (this : String) (bs : list byte) :
  contents m this = Ok bs ->
  print m this = Ok (if final_nul bs then before_nul bs else bs) /\
  (final_nul bs = true ->
   Forall (fun c => c <> x00) (take (length bs - 1) bs) ->
   print m this = Ok (take (length bs - 1) bs)).
Proof.
  intros Hc.
  assert (print m this = Ok (if final_nul bs then before_nul bs else bs)) as Hp.
  { unfold print. rewrite (ends_with_nul_contents _ _ _ Hc). simpl.
    destruct (final_nul bs) eqn:Hf; [|exact Hc].
    pose proof (contents_inv _ _ _ Hc) as (_ & Hl & _).
    apply final_nul_nonempty in Hf as Hne.
    destruct (contents_slice _ _ _ Hc) as (b & o & blk & Hd & Hb & Ho & Hbs);
      [lia|].
    unfold prints. rewrite Hd, Hb.
    destruct (Z.leb_spec 0 o); [|lia].
    rewrite <- (take_drop (Z.to_nat (size this)) (drop (Z.to_nat o) blk)).
    rewrite <- Hbs. apply c_string_app. exact Hf. }
  split; [first [exact Hp | reflexivity]|].
  intros Hf Hall. rewrite Hp, Hf. f_equal.
  clear Hp Hc. induction bs as [|c t IH]; [discriminate|].
  destruct t as [|d t'].
  - unfold final_nul in Hf. simpl in Hf. simpl. rewrite Hf. reflexivity.
  - rewrite final_nul_cons in Hf by discriminate.
    simpl length in *. replace (S (S (length t')) - 1)%nat
      with (S (S (length t') - 1)) in * by lia.
    simpl take in *. apply Forall_cons in Hall as [Hc Hall].
    simpl before_nul.
    destruct (Byte.eqb c x00) eqn:Hcz.
    + apply Byte.byte_dec_bl in Hcz. contradiction.
    + f_equal. apply IH; assumption.
Qed.

(** ** Indexing *)

(** X2: [operator []] fails with "index out of bound" exactly when
    [index >= size], and otherwise returns the byte of the contents at that
    position. *)
Theorem operator_index_spec (m : Mem) (this : String) (bs : list byte)
    (index : Z) :
  contents m this = Ok bs -> 0 <= index ->
  (operator_index m this index = Abort "index out of bound" <->
   size this <= index) /\
  (index < size this ->
   exists c, bs !! Z.to_nat index = Some c /\
             operator_index m this index = Ok c).
Proof.
  intros Hc Hi. apply contents_inv in Hc as (_ & Hl & Hb).
  unfold operator_index, assert.
  destruct (Z.ltb_spec index (size this)) as [Hlt|Hge]; simpl.
  - split.
    + split; [|lia]. intros H. exfalso. revert H. apply no_abort_load.
    + intros _. destruct (bs !! Z.to_nat index) as [c|] eqn:Hbi.
      * exists c. split; [reflexivity|].
        apply Hb in Hbi. rewrite Z2Nat.id in Hbi by lia. exact Hbi.
      * apply lookup_ge_None in Hbi. lia.
  - split; [split; [lia | reflexivity] | lia].
Qed.

(** ** The two lengths *)

Lemma count_lead_bytes_bounds (l : list byte) :
  0 <= count_lead_bytes l <= Z.of_nat (length l).
Proof.
  unfold count_lead_bytes. induction l as [|c t IH]; simpl; [lia|].
  destruct (negb (utf8_continuation c)); simpl length; lia.
Qed.

Lemma count_lead_bytes_ascii (l : list byte) :
  Forall (fun c => uint8_of c < 0x80) l ->
  count_lead_bytes l = Z.of_nat (length l).
Proof.
  unfold count_lead_bytes. induction 1 as [|c t Hc _ IH]; [reflexivity|].
  simpl. unfold utf8_continuation at 1.
  destruct (Z.leb_spec 0x80 (uint8_of c)); [lia|]. simpl. lia.
Qed.

(** X3: on a readable string the character count never exceeds the byte
    length, which is [size] or [size - 1]; both are 0 for an empty string,
    and they coincide when every byte is below 0x80. *)
Theorem lengths_ordered (m : Mem) (this : String) (bs : list byte) :
  wf_String this -> contents m this = Ok bs ->
  exists n u,
    strlen m this = Ok n /\ strlenUTF8 m this = Ok u /\
    0 <= u <= n /\ n <= size this <= n + 1 /\
    (size this = 0 -> n = 0 /\ u = 0) /\
    (Forall (fun c => uint8_of c < 0x80) bs -> u = n).
Proof.
  intros Hwf Hc.
  pose proof (contents_inv _ _ _ Hc) as (_ & Hl & _).
  pose proof (length_drop_final_nul bs) as Hlen.
  pose proof (count_lead_bytes_bounds (drop_final_nul bs)) as Hcount.
  exists (if final_nul bs then size this - 1 else size this),
         (count_lead_bytes (drop_final_nul bs)).
  split; [apply strlen_contents; assumption|].
  split; [apply strlenUTF8_contents; assumption|].
  destruct (final_nul bs) eqn:Hf.
  - apply final_nul_nonempty in Hf.
    split; [lia|]. split; [lia|]. split; [lia|].
    intros Hall. rewrite count_lead_bytes_ascii; [lia|].
    unfold drop_final_nul. destruct (final_nul bs); [|exact Hall].
    apply Forall_take. exact Hall.
  - split; [lia|]. split; [lia|]. split; [lia|].
    intros Hall. rewrite count_lead_bytes_ascii; [lia|].
    unfold drop_final_nul. destruct (final_nul bs); [|exact Hall].
    apply Forall_take. exact Hall.
Qed.

(** ** More on the order *)

Section Order.

Variable char_signed : bool.

Lemma compare_bytes_trans (xs : list byte) :
  forall ys zs,
    compare_bytes char_signed xs ys = -1 ->
    compare_bytes char_signed ys zs = -1 ->
    compare_bytes char_signed xs zs = -1.
Proof.
  induction xs as [|x xs' IH]; intros [|y ys'] [|z zs']; simpl;
    try discriminate; try reflexivity.
  destruct (Z.ltb_spec (char_val char_signed y) (char_val char_signed x));
    [discriminate|].
  destruct (Z.ltb_spec (char_val char_signed z) (char_val char_signed y));
    [discriminate|].
  destruct (Z.ltb_spec (char_val char_signed x) (char_val char_signed y)),
           (Z.ltb_spec (char_val char_signed y) (char_val char_signed z)),
           (Z.ltb_spec (char_val char_signed z) (char_val char_signed x)),
           (Z.ltb_spec (char_val char_signed x) (char_val char_signed z));
    try lia; try reflexivity.
  apply IH.
Qed.

(** X4: [<] is transitive, and [==] is a congruence for [compare]: strings
    that compare equal compare alike against any third string. *)
Theorem operator_lt_transitive (m : Mem) (a b c : String)
    (xs ys zs : list byte) :
  contents m a = Ok xs -> contents m b = Ok ys -> contents m c = Ok zs ->
  (operator_lt char_signed m a b = Ok true ->
   operator_lt char_signed m b c = Ok true ->
   operator_lt char_signed m a c = Ok true) /\
  (operator_eq char_signed m a b = Ok true ->
   compare char_signed m a c = compare char_signed m b c).
Proof.
  intros Ha Hb Hc.
  destruct (operators_contents char_signed _ _ _ _ _ Ha Hb) as (Hab & _ & Heq & _).
  destruct (operators_contents char_signed _ _ _ _ _ Hb Hc) as (Hbc & _).
  destruct (operators_contents char_signed _ _ _ _ _ Ha Hc) as (Hac & _).
  split.
  - rewrite Hab, Hbc, Hac. intros [= H1] [= H2]. f_equal.
    apply bool_decide_eq_true in H1. apply bool_decide_eq_true in H2.
    apply bool_decide_eq_true. eapply compare_bytes_trans; eassumption.
  - rewrite Heq. intros [= H1]. apply bool_decide_eq_true in H1.
    apply compare_bytes_eq in H1. subst ys.
    rewrite (compare_contents char_signed _ _ _ _ _ Ha Hc).
    rewrite (compare_contents char_signed _ _ _ _ _ Hb Hc). reflexivity.
Qed.

(** X5: comparing against a string of size 0 reads no memory, whatever the
    pointers are: an empty string is equal to any other empty string and
    less than every string of positive size. *)
Theorem compare_empty (m : Mem) (e s : String) :
  size e = 0 ->
  (size s = 0 -> compare char_signed m e s = Ok 0) /\
  (0 < size s ->
   compare char_signed m e s = Ok (-1) /\
   compare char_signed m s e = Ok 1 /\
   operator_lt char_signed m e s = Ok true /\
   operator_eq char_signed m e s = Ok false).
Proof.
  intros He. unfold operator_lt, operator_eq, compare. rewrite He. split.
  - intros ->. reflexivity.
  - intros Hpos. destruct (Z.to_nat (size s)) as [|k] eqn:Hk; [lia|].
    simpl. auto.
Qed.

End Order.

(** ** Construction from a pointer *)

Section Construction.

Variable junk : nat -> nat -> byte.





(** X7: a view made by [assign] with [copy = false] owns nothing.  Making
    it, copying it and destroying it leave the memory as it is, and it has
    no counter to read.  It does not keep the bytes alive either: once the
    only owner of the block it points into is destroyed, the block is gone
    and the view can no longer be read. *)
Theorem view_does_not_own (m : Mem) (a : String) (b c : nat) (off n : Z) :
  own_memory a = true -> refcount a = Some c -> cells m !! c = Some 1 ->
  data a = Ptr b 0 -> is_Some (blocks m !! b) -> n <> 0 ->
  exists v m',
    assign junk m String_default (Ptr b off) n false = Ok (m, v) /\
    size v = n /\ data v = Ptr b off /\ own_memory v = false /\
    String_copy m v = Ok (m, v) /\
    String_destroy m v = Ok m /\
    get_refcount m v = Fault /\
    String_destroy m a = Ok m' /\
    blocks m' !! b = None /\
    contents m' v = Fault.
Proof.
  intros Ho Hr Hv Hd [blk Hb] Hn.
  exists (mkString n (Ptr b off) false None),
         (mkMem (delete b (blocks m)) (<[c := 0]> (cells m))).
  split; [reflexivity|]. do 3 (split; [reflexivity|]).
  split; [reflexivity|]. split; [reflexivity|]. split; [reflexivity|].
  assert (String_destroy m a
          = Ok (mkMem (delete b (blocks m)) (<[c := 0]> (cells m)))) as Hdes.
  { unfold String_destroy. rewrite (release_owned _ _ _ _ Ho Hr Hv).
    simpl. unfold free. rewrite Hd. simpl. rewrite Hb. reflexivity. }
  split; [exact Hdes|]. split; [simpl; apply lookup_delete_eq|].
  unfold contents. simpl. apply read_freed; [|exact Hn].
  simpl. apply lookup_delete_eq.
Qed.

(** X8: [String(uint32_t s)] returns an owning string of size [s] over a
    fresh block of [s] bytes with a fresh counter equal to 1, and leaves
    every existing block alone.  Destroying it at once frees the block
    again, while the cell of the counter stays allocated, holding 0. *)
Theorem reserve_then_destroy (m : Mem) (s : Z) :
  is_uint32 s ->
  exists m1 str b c bs m2,
    String_reserve junk m s = Ok (m1, str) /\
    size str = s /\ data str = Ptr b 0 /\ own_memory str = true /\
    refcount str = Some c /\
    blocks m !! b = None /\ cells m !! c = None /\
    get_refcount m1 str = Ok 1 /\
    contents m1 str = Ok bs /\ Z.of_nat (length bs) = s /\
    (forall b0 blk, blocks m !! b0 = Some blk -> blocks m1 !! b0 = Some blk) /\
    String_destroy m1 str = Ok m2 /\
    blocks m2 = blocks m /\
    cells m2 = <[c := 0]> (cells m).
Proof.
  intros Hs.
  set (b := fresh (dom (blocks m))).
  set (c := fresh (dom (cells m))).
  set (bs := junk b <$> seq 0 (Z.to_nat s)).
  assert (Z.of_nat (length bs) = s) as Hlen.
  { unfold bs. rewrite length_fmap, length_seq.
    unfold is_uint32 in Hs. lia. }
  set (str := mkString s (Ptr b 0) true (Some c)).
  set (m1 := mkMem (<[b := bs]> (blocks m)) (<[c := 1]> (cells m))).
  exists m1, str, b, c, bs, (mkMem (blocks m) (<[c := 0]> (cells m))).
  split.
  { unfold String_reserve, malloc. rewrite Z.mul_1_r, wrap32_id by exact Hs.
    simpl. rewrite new_refcount_eq. reflexivity. }
  do 4 (split; [reflexivity|]).
  split; [apply fresh_block|]. split; [apply fresh_cell|].
  split; [unfold get_refcount, load_cell; simpl;
          rewrite lookup_insert_eq; reflexivity|].
  split.
  { unfold contents. simpl. rewrite <- Hlen. apply read_whole_block.
    simpl. apply lookup_insert_eq. }
  split; [exact Hlen|].
  split.
  { intros b0 blk Hb0. simpl. rewrite lookup_insert_ne; [exact Hb0|].
    intros Heq. subst b0. unfold b in Hb0. rewrite fresh_block in Hb0.
    discriminate. }
  split; [|split; reflexivity].
  unfold String_destroy.
  rewrite (release_owned m1 str c 1) by (reflexivity || apply lookup_insert_eq).
  simpl. unfold free. simpl. rewrite lookup_insert_eq.
  rewrite insert_insert_eq, delete_insert_eq, delete_id by apply fresh_block.
  reflexivity.
Qed.

(** ** Substrings, continued *)


(** X10: views compose, as long as the members of the objects under
    construction, which the constructor passes uninitialised to [assign],
    do not hold a counted reference ([own_memory] false or [refcount] null).
    For arguments in range, without wrap-around, taking the view [(o2, n2)]
    of the view [(o1, n1)] of a string gives the same string as taking the
    view [(o1 + o2, n2)] directly, which then passes the check as well, and
    none of the three calls changes the memory. *)
Theorem substr_of_substr (raw : String) (m : Mem) (this : String)
    (o1 n1 o2 n2 : Z) :
  own_memory raw = false \/ refcount raw = None ->
  wf_String this ->
  0 <= o1 -> 0 <= n1 -> 0 <= o2 -> 0 <= n2 ->
  o1 < size this -> o1 + n1 < size this ->
  o2 < n1 -> o2 + n2 < n1 ->
  exists v1 v2,
    substr junk raw m this o1 n1 false = Ok (m, v1) /\
    substr junk raw m v1 o2 n2 false = Ok (m, v2) /\
    substr junk raw m this (o1 + o2) n2 false = Ok (m, v2).
Proof.
  intros Hraw Hwf H1 H2 H3 H4 H5 H6 H7 H8.
  unfold wf_String, is_uint32 in Hwf.
  exists (mkString n1 (ptr_add (data this) o1) false None),
         (mkString n2 (ptr_add (data this) (o1 + o2)) false None).
  split; [|split].
  - rewrite substr_in_bound;
      [apply String_from_view; exact Hraw | lia |].
    rewrite wrap32_id by (unfold is_uint32; lia). lia.
  - rewrite substr_in_bound; simpl;
      [rewrite String_from_view, ptr_add_add by exact Hraw; reflexivity
      | lia |].
    rewrite wrap32_id by (unfold is_uint32; lia). lia.
  - rewrite substr_in_bound;
      [apply String_from_view; exact Hraw | lia |].
    rewrite wrap32_id by (unfold is_uint32; lia). lia.
Qed.

(** ** Concatenation, continued *)

Lemma final_nul_app (xs ys : list byte) :
  ys <> [] -> final_nul (xs ++ ys) = final_nul ys.
Proof.
  intros Hy. unfold final_nul. rewrite last_app.
  destruct (last ys) as [c|] eqn:Hl; [reflexivity|].
  apply last_None in Hl. contradiction.
Qed.

Lemma drop_final_nul_app (xs ys : list byte) :
  ys <> [] -> drop_final_nul (xs ++ ys) = xs ++ drop_final_nul ys.
Proof.
  intros Hy. unfold drop_final_nul. rewrite final_nul_app by exact Hy.
  destruct (final_nul ys); [|reflexivity].
  assert (0 < length ys)%nat by (destruct ys; [contradiction | simpl; lia]).
  rewrite length_app.
  replace (length xs + length ys - 1)%nat
    with (length xs + (length ys - 1))%nat by lia.
  apply take_app_add.
Qed.

Lemma count_lead_bytes_app (xs ys : list byte) :
  count_lead_bytes (xs ++ ys) = count_lead_bytes xs + count_lead_bytes ys.
Proof.
  unfold count_lead_bytes. rewrite List.filter_app, length_app. lia.
Qed.

(** X11: both lengths are additive under concatenation: after a successful
    [+=] on readable operands, [strlen] of the result is the sum of the two
    [strlen]s, and [strlenUTF8] of the result the sum of the two
    [strlenUTF8]s. *)
Theorem concat_lengths_additive (m m' : Mem) (this str this' : String)
    (xs ys : list byte) :
  wf_String this -> wf_String str ->
  contents m this = Ok xs -> contents m str = Ok ys ->
  operator_plus_eq junk m this str = Ok (m', this') ->
  exists n1 n2 u1 u2,
    strlen m this = Ok n1 /\ strlen m str = Ok n2 /\
    strlen m' this' = Ok (n1 + n2) /\
    strlenUTF8 m this = Ok u1 /\ strlenUTF8 m str = Ok u2 /\
    strlenUTF8 m' this' = Ok (u1 + u2).
Proof.
  intros Ht Hs Hx Hy Hpe.
  destruct (operator_plus_eq_contents junk _ _ _ _ _ _ _ Ht Hs Hx Hy Hpe)
    as [Hc' Hsz].
  destruct (operator_plus_eq_Ok_inv junk _ _ _ _ _ Ht Hs Hpe)
    as (_ & _ & _ & Hsum & _).
  destruct (sum_exceeds_no_wrap _ _ Ht Hs Hsum) as (Hpt & Hps & Hlt).
  pose proof (contents_inv _ _ _ Hx) as (_ & Hlx & _).
  pose proof (contents_inv _ _ _ Hy) as (_ & Hly & _).
  assert (ys <> []) as Hne by (intros ->; simpl in Hly; lia).
  assert (wf_String this') as Ht'.
  { unfold wf_String, is_uint32 in *. rewrite Hsz.
    destruct (final_nul xs); lia. }
  exists (if final_nul xs then size this - 1 else size this),
         (if final_nul ys then size str - 1 else size str),
         (count_lead_bytes (drop_final_nul xs)),
         (count_lead_bytes (drop_final_nul ys)).
  split; [apply strlen_contents; assumption|].
  split; [apply strlen_contents; assumption|].
  split.
  { rewrite (strlen_contents _ _ _ Ht' Hc'), final_nul_app by exact Hne.
    rewrite Hsz. f_equal. destruct (final_nul xs), (final_nul ys); lia. }
  split; [apply strlenUTF8_contents; assumption|].
  split; [apply strlenUTF8_contents; assumption|].
  rewrite (strlenUTF8_contents _ _ _ Ht' Hc').
  rewrite drop_final_nul_app, count_lead_bytes_app by exact Hne.
  reflexivity.
Qed.

(** [s] has no counter, or it owns its data and its counter is a live cell
    holding a positive 32-bit count. *)
Definition holds_reference (m : Mem) (s : String) : Prop :=
  match refcount s with
  | None => True
  | Some c =>
      own_memory s = true /\
      exists v, cells m !! c = Some v /\ is_uint32 v /\ v <> 0
  end.

Lemma operator_plus_changes (m m' : Mem) (lhs rhs r : String) :
  wf_String lhs -> wf_String rhs -> holds_reference m lhs ->
  operator_plus junk m lhs rhs = Ok (m', r) ->
  exists final,
    blocks m' = <[fresh (dom (blocks m)) := final]> (blocks m) /\
    cells m' = <[fresh (dom (cells m)) := 1]> (cells m) /\
    r = mkString (size r) (Ptr (fresh (dom (blocks m))) 0) true
                 (Some (fresh (dom (cells m)))).
Proof.
  intros Hl Hr Href Hp.
  destruct (operator_plus_Ok_inv junk _ _ _ _ _ Hl Hr Hp) as (m1 & Hcopy & Hb1 & Hpe).
  destruct (operator_plus_eq_Ok_inv junk _ _ _ _ _ Hl Hr Hpe)
    as (m2 & m3 & final & _ & _ & Hb2 & Hc2 & Hrel & Hm' & Hr' & _ & _).
  rewrite Hb1 in *.
  assert (blocks m3 = blocks m2 /\ cells m3 = cells m) as [Hb3 Hc3].
  { unfold holds_reference in Href.
    destruct (refcount lhs) as [c|] eqn:Hrc.
    - destruct Href as (Ho & v & Hv & Hu & Hnz).
      rewrite (String_copy_counted _ _ _ _ Hrc Hv) in Hcopy.
      injection Hcopy as <-. simpl in *.
      rewrite (release_owned m2 lhs c (wrap32 (v + 1)) Ho Hrc) in Hrel
        by (rewrite Hc2; apply lookup_insert_eq).
      rewrite wrap32_incr_decr in Hrel by exact Hu.
      destruct (Z.eqb_spec v 0); [contradiction|].
      injection Hrel as <-. simpl. split; [reflexivity|].
      rewrite Hc2, insert_insert_eq. apply insert_id. exact Hv.
    - rewrite (String_copy_uncounted _ _ Hrc) in Hcopy.
      injection Hcopy as <-.
      rewrite release_unowned in Hrel by auto.
      injection Hrel as <-. auto. }
  exists final. rewrite Hm'. simpl. rewrite Hb3, Hc3, Hb2.
  split; [reflexivity|]. split; [reflexivity|].
  rewrite Hr' at 1. rewrite Hc3. reflexivity.
Qed.

Lemma operator_plus_keeps (m m' : Mem) (lhs rhs r : String) :
  wf_String lhs -> wf_String rhs -> holds_reference m lhs ->
  operator_plus junk m lhs rhs = Ok (m', r) ->
  (forall s bs, contents m s = Ok bs -> contents m' s = Ok bs) /\
  (forall s v, get_refcount m s = Ok v -> get_refcount m' s = Ok v).
Proof.
  intros Hl Hr Href Hp.
  destruct (operator_plus_changes _ _ _ _ _ Hl Hr Href Hp)
    as (final & Hb & Hc & _).
  split.
  - intros s bs Hs. unfold contents in *. eapply read_mono; [|exact Hs].
    rewrite Hb. apply insert_subseteq. apply fresh_block.
  - intros s v. unfold get_refcount, load_cell.
    destruct (refcount s) as [c|]; [|discriminate].
    destruct (cells m !! c) as [w|] eqn:Hw; [|discriminate].
    intros [= <-]. rewrite Hc, lookup_insert_ne, Hw; [reflexivity|].
    apply fresh_cell_ne. eauto.
Qed.

Lemma operator_plus_contents (m m' : Mem) (lhs rhs r : String)
    (xs ys : list byte) :
  wf_String lhs -> wf_String rhs ->
  contents m lhs = Ok xs -> contents m rhs = Ok ys ->
  operator_plus junk m lhs rhs = Ok (m', r) ->
  contents m' r = Ok (drop_final_nul xs ++ ys) /\ wf_String r /\ ys <> [].
Proof.
  intros Hl Hr Hx Hy Hp.
  destruct (operator_plus_Ok_inv junk _ _ _ _ _ Hl Hr Hp) as (m1 & _ & Hb1 & Hpe).
  assert (contents m1 lhs = Ok xs) as Hx1
    by (unfold contents; rewrite (read_same_blocks m m1) by exact Hb1; exact Hx).
  assert (contents m1 rhs = Ok ys) as Hy1
    by (unfold contents; rewrite (read_same_blocks m m1) by exact Hb1; exact Hy).
  destruct (operator_plus_eq_contents junk _ _ _ _ _ _ _ Hl Hr Hx1 Hy1 Hpe)
    as [Hc Hsz].
  destruct (operator_plus_eq_Ok_inv junk _ _ _ _ _ Hl Hr Hpe)
    as (_ & _ & _ & Hsum & _).
  destruct (sum_exceeds_no_wrap _ _ Hl Hr Hsum) as (Hpt & Hps & Hlt).
  pose proof (contents_inv _ _ _ Hy) as (_ & Hly & _).
  split; [exact Hc|]. split.
  - unfold wf_String, is_uint32 in *. rewrite Hsz. destruct (final_nul xs); lia.
  - intros ->. simpl in Hly. lia.
Qed.

(** X12: [a + b] leaves its operands alone.  Provided the left operand has
    no counter or holds a counted reference, the only changes to the memory
    are one new block, the result's, and one new counter equal to 1: every
    string readable before reads the same bytes after, and every counter
    has the value it had, the left operand's included. *)
Theorem operator_plus_frame (m m' : Mem) (lhs rhs r : String) :
  wf_String lhs -> wf_String rhs -> holds_reference m lhs ->
  operator_plus junk m lhs rhs = Ok (m', r) ->
  (exists final,
     blocks m' = <[fresh (dom (blocks m)) := final]> (blocks m) /\
     cells m' = <[fresh (dom (cells m)) := 1]> (cells m) /\
     data r = Ptr (fresh (dom (blocks m))) 0 /\
     refcount r = Some (fresh (dom (cells m))) /\ own_memory r = true) /\
  blocks m !! fresh (dom (blocks m)) = None /\
  cells m !! fresh (dom (cells m)) = None /\
  (forall s bs, contents m s = Ok bs -> contents m' s = Ok bs) /\
  (forall s v, get_refcount m s = Ok v -> get_refcount m' s = Ok v).
Proof.
  intros Hl Hr Href Hp.
  destruct (operator_plus_changes _ _ _ _ _ Hl Hr Href Hp)
    as (final & Hb & Hc & Hr').
  destruct (operator_plus_keeps _ _ _ _ _ Hl Hr Href Hp) as [Hk1 Hk2].
  split.
  { exists final. split; [exact Hb|]. split; [exact Hc|].
    rewrite Hr'. auto. }
  split; [apply fresh_block|]. split; [apply fresh_cell|].
  split; assumption.
Qed.

(** X13: concatenation with [+] is associative on the bytes: when the four
    calls succeed, [(a + b) + c] and [a + (b + c)] hold the same bytes,
    namely those of [a] and [b], each without a final zero byte, followed
    by those of [c]. *)
Theorem operator_plus_assoc (m m1 m2 m1' m2' : Mem)
    (a b c ab abc bc abc' : String) (xs ys zs : list byte) :
  wf_String a -> wf_String b -> wf_String c ->
  contents m a = Ok xs -> contents m b = Ok ys -> contents m c = Ok zs ->
  holds_reference m a -> holds_reference m b ->
  operator_plus junk m a b = Ok (m1, ab) ->
  operator_plus junk m1 ab c = Ok (m2, abc) ->
  operator_plus junk m b c = Ok (m1', bc) ->
  operator_plus junk m1' a bc = Ok (m2', abc') ->
  contents m2 abc = Ok (drop_final_nul xs ++ drop_final_nul ys ++ zs) /\
  contents m2' abc' = Ok (drop_final_nul xs ++ drop_final_nul ys ++ zs).
Proof.
  intros Ha Hb Hc Hx Hy Hz Hra Hrb H1 H2 H3 H4.
  destruct (operator_plus_contents _ _ _ _ _ _ _ Ha Hb Hx Hy H1)
    as (Hab & Hwab & Hyne).
  destruct (operator_plus_keeps _ _ _ _ _ Ha Hb Hra H1) as [Hk1 _].
  destruct (operator_plus_contents _ _ _ _ _ _ _ Hwab Hc Hab (Hk1 _ _ Hz) H2)
    as (Habc & _ & _).
  destruct (operator_plus_contents _ _ _ _ _ _ _ Hb Hc Hy Hz H3)
    as (Hbc & Hwbc & _).
  destruct (operator_plus_keeps _ _ _ _ _ Hb Hc Hrb H3) as [Hk3 _].
  destruct (operator_plus_contents _ _ _ _ _ _ _ Ha Hwbc (Hk3 _ _ Hx) Hbc H4)
    as (Habc' & _ & _).
  split.
  - rewrite Habc, drop_final_nul_app, <- app_assoc by exact Hyne. reflexivity.
  - exact Habc'.
Qed.

End Construction.

(** ** The counters count the owners *)

(** Objects of the class live at addresses; a store maps the address of
    each live object to its members. *)

(** A copy-constructed object at [this], made from the object at [obj]. *)
Definition construct_copy (m : Mem) (objs : gmap nat String) (this obj : nat)
  : outcome (Mem * gmap nat String) :=
  match objs !! obj with
  | Some o => '(m1, s) ← String_copy m o; Ok (m1, <[this := s]> objs)
  | None => Fault
  end.

(** The destructor run on the object at [this], which then is no more. *)
Definition destroy (m : Mem) (objs : gmap nat String) (this : nat)
  : outcome (Mem * gmap nat String) :=
  match objs !! this with
  | Some t => m1 ← String_destroy m t; Ok (m1, delete this objs)
  | None => Fault
  end.

(** The objects whose counter is the cell [c]. *)
Definition owners (objs : gmap nat String) (c : nat) : gmap nat String :=
  filter (fun kv => refcount kv.2 = Some c) objs.

Definition refs (objs : gmap nat String) (c : nat) : nat :=
  base.size (owners objs c).

(** The discipline of the class on a store: an object that does not own has
    no counter; an owning object has a counter and points at the start of a
    live block, and its counter holds the number of objects that share it;
    two owning objects share a counter exactly when they share the data;
    and there are fewer than 2^32 objects. *)
Record heap_ok (m : Mem) (objs : gmap nat String) : Prop := {
  ok_views : forall a o,
    objs !! a = Some o -> own_memory o = false -> refcount o = None;
  ok_owner : forall a o,
    objs !! a = Some o -> own_memory o = true ->
    exists c b,
      refcount o = Some c /\ data o = Ptr b 0 /\ is_Some (blocks m !! b) /\
      cells m !! c = Some (Z.of_nat (refs objs c));
  ok_share : forall a1 o1 a2 o2,
    objs !! a1 = Some o1 -> objs !! a2 = Some o2 ->
    own_memory o1 = true -> own_memory o2 = true ->
    (refcount o1 = refcount o2 <-> data o1 = data o2);
  ok_bound : Z.of_nat (base.size objs) < 2 ^ 32
}.

Lemma owners_lookup (objs : gmap nat String) (c a : nat) (o : String) :
  owners objs c !! a = Some o <-> objs !! a = Some o /\ refcount o = Some c.
Proof. unfold owners. apply map_lookup_filter_Some. Qed.

Lemma refs_le_size (objs : gmap nat String) (c : nat) :
  (refs objs c <= base.size objs)%nat.
Proof. apply map_subseteq_size. apply map_filter_subseteq. Qed.

Lemma refs_pos (objs : gmap nat String) (a c : nat) (t : String) :
  objs !! a = Some t -> refcount t = Some c -> (0 < refs objs c)%nat.
Proof.
  intros Ha Hr. unfold refs.
  destruct (base.size (owners objs c)) eqn:Hs; [|lia].
  apply map_size_empty_iff in Hs.
  assert (owners objs c !! a = Some t) as Ho by (apply owners_lookup; auto).
  rewrite Hs, lookup_empty in Ho. discriminate.
Qed.

Lemma refs_delete_counted (objs : gmap nat String) (a c : nat) (t : String) :
  objs !! a = Some t -> refcount t = Some c ->
  refs objs c = S (refs (delete a objs) c).
Proof.
  intros Ha Hr. pose proof (refs_pos _ _ _ _ Ha Hr) as Hpos.
  unfold refs, owners in *. rewrite map_filter_delete.
  rewrite map_size_delete_Some; [lia|].
  exists t. apply map_lookup_filter_Some. auto.
Qed.

Lemma refs_delete_other (objs : gmap nat String) (a c : nat) :
  (forall t, objs !! a = Some t -> refcount t <> Some c) ->
  refs (delete a objs) c = refs objs c.
Proof.
  intros Hno. unfold refs, owners. rewrite map_filter_delete.
  rewrite delete_id; [reflexivity|].
  apply map_lookup_filter_None.
  destruct (objs !! a) as [t|] eqn:Ha; [right | left; reflexivity].
  intros x [= <-]. simpl. apply Hno. reflexivity.
Qed.

Lemma refs_insert_counted (objs : gmap nat String) (a c : nat) (o : String) :
  objs !! a = None -> refcount o = Some c ->
  refs (<[a := o]> objs) c = S (refs objs c).
Proof.
  intros Ha Hr. unfold refs, owners.
  rewrite map_filter_insert_True by exact Hr.
  apply map_size_insert_None. apply map_lookup_filter_None. auto.
Qed.

Lemma refs_insert_other (objs : gmap nat String) (a c : nat) (o : String) :
  objs !! a = None -> refcount o <> Some c ->
  refs (<[a := o]> objs) c = refs objs c.
Proof.
  intros Ha Hr. unfold refs, owners.
  rewrite map_filter_insert_False by exact Hr.
  rewrite delete_id by exact Ha. reflexivity.
Qed.

Lemma size_delete_le (objs : gmap nat String) (a : nat) :
  (base.size (delete a objs) <= base.size objs)%nat.
Proof. rewrite map_size_delete. destruct (objs !! a); simpl; lia. Qed.

Lemma contents_same_block (m m' : Mem) (o : String) (b : nat) :
  data o = Ptr b 0 -> blocks m' !! b = blocks m !! b ->
  contents m' o = contents m o.
Proof. intros Hd Hb. unfold contents. rewrite Hd. apply read_lookup. exact Hb. Qed.

(** Dropping the reference of the object at [this], when the memory changes
    as [release_data_if_needed] changes it. *)
Lemma heap_ok_after_release (m m' : Mem) (objs : gmap nat String)
    (this c b : nat) (t : String) :
  heap_ok m objs -> objs !! this = Some t ->
  own_memory t = true -> refcount t = Some c -> data t = Ptr b 0 ->
  cells m' = <[c := Z.of_nat (refs (delete this objs) c)]> (cells m) ->
  (forall b', b' <> b -> blocks m' !! b' = blocks m !! b') ->
  (refs (delete this objs) c <> 0%nat -> blocks m' !! b = blocks m !! b) ->
  heap_ok m' (delete this objs) /\
  (forall a o, delete this objs !! a = Some o -> own_memory o = true ->
               contents m' o = contents m o).
Proof.
  intros Hok Ht Hown Hr Hd Hcells Hother Hsame.
  assert (forall a o, delete this objs !! a = Some o -> own_memory o = true ->
            exists c' b',
              refcount o = Some c' /\ data o = Ptr b' 0 /\
              blocks m' !! b' = blocks m !! b' /\ is_Some (blocks m !! b') /\
              cells m' !! c' = Some (Z.of_nat (refs (delete this objs) c')))
    as Hkey.
  { intros a o Ha Ho. pose proof Ha as Ha'.
    apply lookup_delete_Some in Ha' as [Hne Hao].
    destruct (ok_owner _ _ Hok a o Hao Ho) as (c' & b' & Hr' & Hd' & Hlive & Hc').
    exists c', b'. split; [exact Hr'|]. split; [exact Hd'|].
    destruct (decide (c' = c)) as [->|Hcne].
    - assert (b' = b) as ->.
      { assert (data o = data t) as Hdd
          by (apply (ok_share _ _ Hok a o this t); congruence).
        congruence. }
      pose proof (refs_pos _ _ _ _ Ha Hr') as Hpos.
      split; [apply Hsame; lia|]. split; [exact Hlive|].
      rewrite Hcells. apply lookup_insert_eq.
    - assert (b' <> b) as Hbne.
      { intros ->. apply Hcne.
        assert (refcount o = refcount t) as Hrr
          by (apply (ok_share _ _ Hok a o this t); congruence).
        congruence. }
      split; [apply Hother; exact Hbne|]. split; [exact Hlive|].
      rewrite Hcells, lookup_insert_ne by congruence.
      rewrite refs_delete_other; [exact Hc'|].
      intros t' Ht'. congruence. }
  split.
  - constructor.
    + intros a o Ha. apply lookup_delete_Some in Ha as [_ Ha].
      exact (ok_views _ _ Hok a o Ha).
    + intros a o Ha Ho.
      destruct (Hkey a o Ha Ho) as (c' & b' & H1 & H2 & H3 & H4 & H5).
      exists c', b'. rewrite H3. auto.
    + intros a1 o1 a2 o2 H1 H2.
      apply lookup_delete_Some in H1 as [_ H1].
      apply lookup_delete_Some in H2 as [_ H2].
      exact (ok_share _ _ Hok a1 o1 a2 o2 H1 H2).
    + pose proof (size_delete_le objs this). pose proof (ok_bound _ _ Hok). lia.
  - intros a o Ha Ho.
    destruct (Hkey a o Ha Ho) as (c' & b' & _ & H2 & H3 & _).
    exact (contents_same_block _ _ _ _ H2 H3).
Qed.

Lemma heap_ok_delete_view (m : Mem) (objs : gmap nat String) (this : nat)
    (t : String) :
  heap_ok m objs -> objs !! this = Some t -> refcount t = None ->
  heap_ok m (delete this objs).
Proof.
  intros Hok Ht Hr. constructor.
  - intros a o Ha. apply lookup_delete_Some in Ha as [_ Ha].
    exact (ok_views _ _ Hok a o Ha).
  - intros a o Ha Ho. apply lookup_delete_Some in Ha as [_ Ha].
    destruct (ok_owner _ _ Hok a o Ha Ho) as (c & b & H1 & H2 & H3 & H4).
    exists c, b. do 3 (split; [assumption|]).
    rewrite refs_delete_other; [exact H4|].
    intros t' Ht'. congruence.
  - intros a1 o1 a2 o2 H1 H2.
    apply lookup_delete_Some in H1 as [_ H1].
    apply lookup_delete_Some in H2 as [_ H2].
    exact (ok_share _ _ Hok a1 o1 a2 o2 H1 H2).
  - pose proof (size_delete_le objs this). pose proof (ok_bound _ _ Hok). lia.
Qed.

Lemma release_keeps_discipline (m : Mem) (objs : gmap nat String)
    (this : nat) (t : String) :
  heap_ok m objs -> objs !! this = Some t ->
  exists m',
    release_data_if_needed m t = Ok m' /\
    heap_ok m' (delete this objs) /\
    (forall a o, delete this objs !! a = Some o -> own_memory o = true ->
                 contents m' o = contents m o).
Proof.
  intros Hok Ht. destruct (own_memory t) eqn:Hown.
  - destruct (ok_owner _ _ Hok this t Ht Hown)
      as (c & b & Hr & Hd & [blk Hb] & Hc).
    pose proof (refs_delete_counted _ _ _ _ Ht Hr) as Hn.
    pose proof (refs_le_size objs c) as Hle.
    pose proof (ok_bound _ _ Hok) as Hbound.
    assert (wrap32 (Z.of_nat (refs objs c) - 1)
            = Z.of_nat (refs (delete this objs) c)) as Hw.
    { rewrite wrap32_id; unfold is_uint32; lia. }
    rewrite (release_owned _ _ _ _ Hown Hr Hc), Hw.
    destruct (Z.eqb_spec (Z.of_nat (refs (delete this objs) c)) 0) as [Hz|Hnz].
    + unfold free. rewrite Hd. simpl. rewrite Hb.
      eexists. split; [reflexivity|].
      apply (heap_ok_after_release m _ objs this c b t); auto; simpl.
      * intros b' Hne. apply lookup_delete_ne. congruence.
      * intros Hne. lia.
    + eexists. split; [reflexivity|].
      apply (heap_ok_after_release m _ objs this c b t); auto.
  - pose proof (ok_views _ _ Hok this t Ht Hown) as Hr.
    exists m. split; [apply release_unowned; auto|].
    split; [apply (heap_ok_delete_view m objs this t); assumption|].
    reflexivity.
Qed.

Lemma copy_keeps_discipline (m : Mem) (objs : gmap nat String)
    (this obj : nat) (o : String) :
  heap_ok m objs -> objs !! this = None -> objs !! obj = Some o ->
  Z.of_nat (base.size objs) + 1 < 2 ^ 32 ->
  exists m',
    String_copy m o = Ok (m', o) /\
    heap_ok m' (<[this := o]> objs) /\
    blocks m' = blocks m.
Proof.
  intros Hok Hthis Hobj Hbound.
  assert (forall a o', <[this := o]> objs !! a = Some o' ->
                       exists a', objs !! a' = Some o') as Hback.
  { intros a o' Ha. apply lookup_insert_Some in Ha as [[_ <-]|[_ Ha]]; eauto. }
  assert (Z.of_nat (base.size (<[this := o]> objs)) < 2 ^ 32) as Hbound'.
  { rewrite map_size_insert_None by exact Hthis. lia. }
  destruct (own_memory o) eqn:Hown.
  - destruct (ok_owner _ _ Hok obj o Hobj Hown)
      as (c & b & Hr & Hd & Hlive & Hc).
    pose proof (refs_le_size objs c) as Hle.
    rewrite (String_copy_counted _ _ _ _ Hr Hc).
    rewrite wrap32_id by (unfold is_uint32; lia).
    eexists. split; [reflexivity|]. split; [|reflexivity].
    constructor; simpl.
    + intros a o' Ha. destruct (Hback a o' Ha) as [a' Ha'].
      exact (ok_views _ _ Hok a' o' Ha').
    + intros a o' Ha Ho'. destruct (Hback a o' Ha) as [a' Ha'].
      destruct (ok_owner _ _ Hok a' o' Ha' Ho')
        as (c' & b' & Hr' & Hd' & Hlive' & Hc').
      exists c', b'. do 3 (split; [assumption|]).
      destruct (decide (c' = c)) as [->|Hne].
      * rewrite lookup_insert_eq, (refs_insert_counted objs this c o Hthis Hr).
        f_equal. lia.
      * rewrite lookup_insert_ne by congruence.
        rewrite refs_insert_other; [exact Hc' | exact Hthis | congruence].
    + intros a1 o1 a2 o2 H1 H2.
      destruct (Hback a1 o1 H1) as [a1' H1'].
      destruct (Hback a2 o2 H2) as [a2' H2'].
      exact (ok_share _ _ Hok a1' o1 a2' o2 H1' H2').
    + exact Hbound'.
  - pose proof (ok_views _ _ Hok obj o Hobj Hown) as Hr.
    rewrite (String_copy_uncounted _ _ Hr).
    exists m. split; [reflexivity|]. split; [|reflexivity].
    constructor.
    + intros a o' Ha. destruct (Hback a o' Ha) as [a' Ha'].
      exact (ok_views _ _ Hok a' o' Ha').
    + intros a o' Ha Ho'. destruct (Hback a o' Ha) as [a' Ha'].
      destruct (ok_owner _ _ Hok a' o' Ha' Ho')
        as (c' & b' & Hr' & Hd' & Hlive' & Hc').
      exists c', b'. do 3 (split; [assumption|]).
      rewrite refs_insert_other; [exact Hc' | exact Hthis | congruence].
    + intros a1 o1 a2 o2 H1 H2.
      destruct (Hback a1 o1 H1) as [a1' H1'].
      destruct (Hback a2 o2 H2) as [a2' H2'].
      exact (ok_share _ _ Hok a1' o1 a2' o2 H1' H2').
    + exact Hbound'.
Qed.

Lemma String_copy_incr (m m' : Mem) (o : String) :
  String_copy m o = Ok (m', o) -> incr_refcount m (refcount o) = Ok m'.
Proof.
  unfold String_copy.
  destruct (incr_refcount m (refcount o)) as [m1| |]; simpl; try discriminate.
  intros [= <-]. reflexivity.
Qed.

(** Owning objects other than the one at [this] keep their bytes. *)
Definition others_intact (m m' : Mem) (objs : gmap nat String) (this : nat)
  : Prop :=
  forall a o, a <> this -> objs !! a = Some o -> own_memory o = true ->
              contents m' o = contents m o.

(** X14: the destructor keeps the discipline of the class.  On a store that
    follows it, destroying an object never faults; afterwards the store
    without that object follows it again, so every counter still holds the
    number of its owners, and every other owning object still reads the
    bytes it read before. *)
Theorem destroy_keeps_discipline (m : Mem) (objs : gmap nat String)
    (this : nat) (t : String) :
  heap_ok m objs -> objs !! this = Some t ->
  exists m',
    destroy m objs this = Ok (m', delete this objs) /\
    heap_ok m' (delete this objs) /\
    others_intact m m' objs this.
Proof.
  intros Hok Ht.
  destruct (release_keeps_discipline _ _ _ _ Hok Ht) as (m' & Hrel & Hok' & Hc).
  exists m'. unfold destroy, String_destroy. rewrite Ht, Hrel.
  split; [reflexivity|]. split; [exact Hok'|].
  intros a o Hne Ha Ho. apply (Hc a o); [|exact Ho].
  apply lookup_delete_Some. auto.
Qed.

(** X15: copy construction keeps the discipline of the class.  On a store
    that follows it and has room for one more object, copying an object to
    a new address never faults, touches no block, and the store with the
    new object follows the discipline again: the shared counter has gone up
    by one, to the new number of owners. *)
Theorem construct_copy_keeps_discipline (m : Mem) (objs : gmap nat String)
    (this obj : nat) (o : String) :
  heap_ok m objs -> objs !! this = None -> objs !! obj = Some o ->
  Z.of_nat (base.size objs) + 1 < 2 ^ 32 ->
  exists m',
    construct_copy m objs this obj = Ok (m', <[this := o]> objs) /\
    heap_ok m' (<[this := o]> objs) /\
    blocks m' = blocks m /\
    (forall c, refcount o = Some c ->
               cells m !! c = Some (Z.of_nat (refs objs c)) /\
               cells m' !! c = Some (Z.of_nat (refs objs c) + 1)).
Proof.
  intros Hok Hthis Hobj Hbound.
  destruct (copy_keeps_discipline _ _ _ _ _ Hok Hthis Hobj Hbound)
    as (m' & Hcopy & Hok' & Hb).
  exists m'. unfold construct_copy. rewrite Hobj, Hcopy.
  split; [reflexivity|]. split; [exact Hok'|]. split; [exact Hb|].
  intros c Hr.
  assert (own_memory o = true) as Hown.
  { destruct (own_memory o) eqn:Ho; [reflexivity|].
    rewrite (ok_views _ _ Hok obj o Hobj Ho) in Hr. discriminate. }
  destruct (ok_owner _ _ Hok obj o Hobj Hown) as (c0 & b & Hr0 & _ & _ & Hc).
  rewrite Hr in Hr0. injection Hr0 as <-. split; [exact Hc|].
  assert (<[this := o]> objs !! this = Some o) as Hnew by apply lookup_insert_eq.
  destruct (ok_owner _ _ Hok' this o Hnew Hown) as (c1 & b1 & Hr1 & _ & _ & Hc1).
  rewrite Hr in Hr1. injection Hr1 as <-.
  rewrite Hc1, (refs_insert_counted objs this c o Hthis Hr). f_equal. lia.
Qed.

Lemma operator_assign_disciplined (m : Mem) (objs : gmap nat String)
    (this obj : nat) (t o : String) :
  heap_ok m objs -> objs !! this = Some t -> objs !! obj = Some o ->
  exists m',
    operator_assign m objs this obj = Ok (m', <[this := o]> objs) /\
    heap_ok m' (<[this := o]> objs) /\
    others_intact m m' objs this.
Proof.
  intros Hok Ht Ho. unfold operator_assign. rewrite Ht, Ho.
  destruct (decide (this = obj)) as [->|Hne].
  - rewrite bool_decide_eq_false_2 by auto.
    assert (t = o) as -> by congruence.
    exists m. rewrite insert_id by exact Ho.
    split; [reflexivity|]. split; [exact Hok|]. intros a o' _ _ _. reflexivity.
  - rewrite bool_decide_eq_true_2 by exact Hne.
    destruct (release_keeps_discipline _ _ _ _ Hok Ht) as (m1 & Hrel & Hok1 & Hc1).
    assert (delete this objs !! obj = Some o) as Ho1
      by (apply lookup_delete_Some; auto).
    assert (Z.of_nat (base.size (delete this objs)) + 1 < 2 ^ 32) as Hbound.
    { pose proof (ok_bound _ _ Hok).
      rewrite map_size_delete_Some by eauto.
      assert (0 < base.size objs)%nat; [|lia].
      destruct (base.size objs) eqn:Hs; [|lia].
      apply map_size_empty_iff in Hs. rewrite Hs, lookup_empty in Ht.
      discriminate. }
    destruct (copy_keeps_discipline m1 (delete this objs) this obj o Hok1
                (lookup_delete_eq _ _) Ho1 Hbound) as (m2 & Hcopy & Hok2 & Hb2).
    rewrite insert_delete_eq in Hok2.
    exists m2. rewrite Hrel. simpl.
    rewrite (String_copy_incr _ _ _ Hcopy). simpl. rewrite String_eta.
    split; [reflexivity|]. split; [exact Hok2|].
    intros a o' Ha Hao Hown.
    rewrite <- (Hc1 a o') by (try apply lookup_delete_Some; auto).
    unfold contents. apply read_same_blocks. exact Hb2.
Qed.

(** X16: copy assignment keeps the discipline of the class, self-assignment
    included.  On a store that follows it, [this = obj] never faults; the
    store in which the object at [this] has become an alias of the one at
    [obj] follows the discipline again, and every other owning object still
    reads the bytes it read before. *)
Theorem operator_assign_keeps_discipline (m : Mem) (objs : gmap nat String)
    (this obj : nat) (t o : String) :
  heap_ok m objs -> objs !! this = Some t -> objs !! obj = Some o ->
  exists m',
    operator_assign m objs this obj = Ok (m', <[this := o]> objs) /\
    heap_ok m' (<[this := o]> objs) /\
    others_intact m m' objs this.
Proof.
  intros Hok Ht Ho.
  exact (operator_assign_disciplined m objs this obj t o Hok Ht Ho).
Qed.

(** ** The discipline under concatenation and construction *)

Section StoreMethods.

Variable junk : nat -> nat -> byte.

(** [operator +=] on the object at [this] with the object at [str]. *)
Definition plus_eq_at (m : Mem) (objs : gmap nat String) (this str : nat)
  : outcome (Mem * gmap nat String) :=
  match objs !! this, objs !! str with
  | Some t, Some s =>
      '(m', t') ← operator_plus_eq junk m t s; Ok (m', <[this := t']> objs)
  | _, _ => Fault
  end.

(** [assign] on the object at [this]. *)
Definition assign_at (m : Mem) (objs : gmap nat String) (this : nat)
    (d : ptr) (n : Z) (copy : bool) : outcome (Mem * gmap nat String) :=
  match objs !! this with
  | Some t => '(m', t') ← assign junk m t d n copy; Ok (m', <[this := t']> objs)
  | None => Fault
  end.

(** [String(uint32_t s)] for a new object at [this]. *)
Definition construct_reserve (m : Mem) (objs : gmap nat String) (this : nat)
    (s : Z) : outcome (Mem * gmap nat String) :=
  '(m', t') ← String_reserve junk m s; Ok (m', <[this := t']> objs).

Lemma refs_unused (objs : gmap nat String) (c : nat) :
  (forall a o, objs !! a = Some o -> refcount o <> Some c) ->
  refs objs c = 0%nat.
Proof.
  intros Hno. unfold refs.
  destruct (map_choose_or_empty (owners objs c)) as [(a & o & Hao)|Hempty].
  - apply owners_lookup in Hao as [Ha Hr]. exfalso. exact (Hno a o Ha Hr).
  - rewrite Hempty. apply map_size_empty.
Qed.

Lemma heap_ok_cell_used (m : Mem) (objs : gmap nat String) (a c : nat)
    (o : String) :
  heap_ok m objs -> objs !! a = Some o -> refcount o = Some c ->
  is_Some (cells m !! c).
Proof.
  intros Hok Ha Hr. destruct (own_memory o) eqn:Ho.
  - destruct (ok_owner _ _ Hok a o Ha Ho) as (c' & b & Hr' & _ & _ & Hc).
    rewrite Hr in Hr'. injection Hr' as <-. eauto.
  - rewrite (ok_views _ _ Hok a o Ha Ho) in Hr. discriminate.
Qed.

Lemma heap_ok_block_used (m : Mem) (objs : gmap nat String) (a b : nat)
    (o : String) :
  heap_ok m objs -> objs !! a = Some o -> own_memory o = true ->
  data o = Ptr b 0 -> is_Some (blocks m !! b).
Proof.
  intros Hok Ha Ho Hd.
  destruct (ok_owner _ _ Hok a o Ha Ho) as (c & b' & _ & Hd' & Hlive & _).
  rewrite Hd in Hd'. injection Hd' as <-. exact Hlive.
Qed.

(** A block nobody uses may appear or change without harm. *)
Lemma heap_ok_add_block (m m' : Mem) (objs : gmap nat String) (b : nat)
    (bs : list byte) :
  heap_ok m objs -> blocks m !! b = None ->
  blocks m' = <[b := bs]> (blocks m) -> cells m' = cells m ->
  heap_ok m' objs /\
  (forall a o, objs !! a = Some o -> own_memory o = true ->
               contents m' o = contents m o).
Proof.
  intros Hok Hb Hbl Hce.
  assert (forall a o b', objs !! a = Some o -> own_memory o = true ->
                         data o = Ptr b' 0 ->
                         blocks m' !! b' = blocks m !! b') as Hsame.
  { intros a o b' Ha Ho Hd. rewrite Hbl. apply lookup_insert_ne. intros <-.
    destruct (heap_ok_block_used _ _ _ _ _ Hok Ha Ho Hd) as [x Hx]. congruence. }
  split.
  - constructor.
    + exact (ok_views _ _ Hok).
    + intros a o Ha Ho.
      destruct (ok_owner _ _ Hok a o Ha Ho) as (c & b' & H1 & H2 & H3 & H4).
      exists c, b'. rewrite (Hsame a o b' Ha Ho H2), Hce. auto.
    + exact (ok_share _ _ Hok).
    + exact (ok_bound _ _ Hok).
  - intros a o Ha Ho.
    destruct (ok_owner _ _ Hok a o Ha Ho) as (c & b' & _ & H2 & _).
    exact (contents_same_block _ _ _ _ H2 (Hsame a o b' Ha Ho H2)).
Qed.

(** A new owner of a block and of a cell that nobody uses. *)
Lemma heap_ok_adopt (m m' : Mem) (objs : gmap nat String) (this b c : nat)
    (n : Z) :
  heap_ok m objs -> objs !! this = None ->
  is_Some (blocks m !! b) ->
  (forall a o, objs !! a = Some o -> own_memory o = true -> data o <> Ptr b 0) ->
  cells m !! c = None ->
  blocks m' = blocks m -> cells m' = <[c := 1]> (cells m) ->
  Z.of_nat (base.size objs) + 1 < 2 ^ 32 ->
  heap_ok m' (<[this := mkString n (Ptr b 0) true (Some c)]> objs).
Proof.
  intros Hok Hthis Hlive Hunused Hc Hbl Hce Hbound.
  set (new := mkString n (Ptr b 0) true (Some c)).
  assert (forall a o, objs !! a = Some o -> refcount o <> Some c) as Hcno.
  { intros a o Ha Hr.
    destruct (heap_ok_cell_used _ _ _ _ _ Hok Ha Hr) as [x Hx]. congruence. }
  constructor.
  - intros a o Ha Ho. apply lookup_insert_Some in Ha as [[_ <-]|[_ Ha]];
      [discriminate|]. exact (ok_views _ _ Hok a o Ha Ho).
  - intros a o Ha Ho. apply lookup_insert_Some in Ha as [[_ <-]|[Hne Ha]].
    + exists c, b. rewrite Hbl, Hce, lookup_insert_eq.
      do 3 (split; [first [reflexivity | exact Hlive]|]).
      rewrite (refs_insert_counted objs this c new Hthis eq_refl).
      rewrite (refs_unused objs c Hcno). reflexivity.
    + destruct (ok_owner _ _ Hok a o Ha Ho) as (c' & b' & H1 & H2 & H3 & H4).
      exists c', b'. rewrite Hbl, Hce. do 3 (split; [assumption|]).
      assert (c' <> c) as Hcne by (intros ->; exact (Hcno a o Ha H1)).
      rewrite lookup_insert_ne by congruence.
      rewrite refs_insert_other; [exact H4 | exact Hthis |].
      simpl. congruence.
  - intros a1 o1 a2 o2 H1 H2 Ho1 Ho2.
    apply lookup_insert_Some in H1 as [[_ <-]|[_ H1]];
      apply lookup_insert_Some in H2 as [[_ <-]|[_ H2]].
    + split; reflexivity.
    + split; intros Heq; exfalso.
      * exact (Hcno a2 o2 H2 (eq_sym Heq)).
      * exact (Hunused a2 o2 H2 Ho2 (eq_sym Heq)).
    + split; intros Heq; exfalso.
      * exact (Hcno a1 o1 H1 Heq).
      * exact (Hunused a1 o1 H1 Ho1 Heq).
    + exact (ok_share _ _ Hok a1 o1 a2 o2 H1 H2 Ho1 Ho2).
  - rewrite map_size_insert_None by exact Hthis. lia.
Qed.

(** A new view. *)
Lemma heap_ok_add_view (m : Mem) (objs : gmap nat String) (this : nat)
    (n : Z) (d : ptr) :
  heap_ok m objs -> objs !! this = None ->
  Z.of_nat (base.size objs) + 1 < 2 ^ 32 ->
  heap_ok m (<[this := mkString n d false None]> objs).
Proof.
  intros Hok Hthis Hbound. constructor.
  - intros a o Ha Ho. apply lookup_insert_Some in Ha as [[_ <-]|[_ Ha]];
      [reflexivity|]. exact (ok_views _ _ Hok a o Ha Ho).
  - intros a o Ha Ho. apply lookup_insert_Some in Ha as [[_ <-]|[_ Ha]];
      [discriminate|].
    destruct (ok_owner _ _ Hok a o Ha Ho) as (c' & b' & H1 & H2 & H3 & H4).
    exists c', b'. do 3 (split; [assumption|]).
    rewrite refs_insert_other; [exact H4 | exact Hthis | discriminate].
  - intros a1 o1 a2 o2 H1 H2 Ho1 Ho2.
    apply lookup_insert_Some in H1 as [[_ <-]|[_ H1]]; [discriminate|].
    apply lookup_insert_Some in H2 as [[_ <-]|[_ H2]]; [discriminate|].
    exact (ok_share _ _ Hok a1 o1 a2 o2 H1 H2 Ho1 Ho2).
  - rewrite map_size_insert_None by exact Hthis. lia.
Qed.

Lemma size_delete_present (objs : gmap nat String) (a : nat) (t : String) :
  objs !! a = Some t ->
  Z.of_nat (base.size (delete a objs)) + 1 = Z.of_nat (base.size objs).
Proof.
  intros Ha. rewrite map_size_delete_Some by eauto.
  assert (0 < base.size objs)%nat; [|lia].
  destruct (base.size objs) eqn:Hs; [|lia].
  apply map_size_empty_iff in Hs. rewrite Hs, lookup_empty in Ha. discriminate.
Qed.

Lemma heap_ok_fresh_block_unused (m : Mem) (objs : gmap nat String) (b : nat) :
  heap_ok m objs -> blocks m !! b = None ->
  forall a o, objs !! a = Some o -> own_memory o = true -> data o <> Ptr b 0.
Proof.
  intros Hok Hb a o Ha Ho Hd.
  destruct (heap_ok_block_used _ _ _ _ _ Hok Ha Ho Hd) as [x Hx]. congruence.
Qed.

(** X17: in-place concatenation keeps the discipline of the class.  When
    [this += str] succeeds on a store that follows it, the store with the
    new left operand follows it again; the new left operand is the only
    owner of its buffer, and every other owning object, the former aliases
    of the left operand included, still reads the bytes it read before. *)
Theorem plus_eq_keeps_discipline (m m' : Mem) (objs objs' : gmap nat String)
    (this str : nat) (t s : String) :
  heap_ok m objs -> objs !! this = Some t -> objs !! str = Some s ->
  wf_String t -> wf_String s ->
  plus_eq_at m objs this str = Ok (m', objs') ->
  heap_ok m' objs' /\
  others_intact m m' objs this /\
  exists t', objs' = <[this := t']> objs /\ own_memory t' = true /\
             get_refcount m' t' = Ok 1.
Proof.
  intros Hok Ht Hs Hwt Hws. unfold plus_eq_at. rewrite Ht, Hs.
  destruct (operator_plus_eq junk m t s) as [[m'' t']| |] eqn:Hpe;
    simpl; try discriminate.
  intros [= <- <-].
  destruct (operator_plus_eq_Ok_inv junk _ _ _ _ _ Hwt Hws Hpe)
    as (m2 & m3 & final & _ & _ & Hb2 & Hc2 & Hrel & Hm' & Ht' & Hb3 & _).
  destruct (heap_ok_add_block m m2 objs _ final Hok (fresh_block m) Hb2 Hc2)
    as [Hok2 Hcont2].
  destruct (release_keeps_discipline _ _ _ _ Hok2 Ht)
    as (m3' & Hrel' & Hok3 & Hcont3).
  assert (m3' = m3) as -> by congruence.
  assert (heap_ok m'' (<[this := t']> objs)) as Hok'.
  { rewrite <- (insert_delete_eq objs), Ht'.
    apply (heap_ok_adopt m3 m'' (delete this objs) this
             (fresh (dom (blocks m))) (fresh (dom (cells m3))) (size t')).
    - exact Hok3.
    - apply lookup_delete_eq.
    - eauto.
    - intros a o Ha. apply lookup_delete_Some in Ha as [_ Ha].
      exact (heap_ok_fresh_block_unused m objs _ Hok (fresh_block m) a o Ha).
    - apply fresh_cell.
    - rewrite Hm'. reflexivity.
    - rewrite Hm'. reflexivity.
    - rewrite (size_delete_present _ _ _ Ht). exact (ok_bound _ _ Hok). }
  split; [exact Hok'|]. split.
  - intros a o Hne Ha Ho.
    rewrite <- (Hcont2 a o Ha Ho).
    rewrite <- (Hcont3 a o) by (try apply lookup_delete_Some; auto).
    unfold contents. apply read_same_blocks. rewrite Hm'. reflexivity.
  - exists t'. split; [reflexivity|]. rewrite Ht', Hm'.
    split; [reflexivity|].
    unfold get_refcount, load_cell. simpl. rewrite lookup_insert_eq.
    reflexivity.
Qed.

Lemma assign_release (m : Mem) (this : String) (d : ptr) (n : Z) (copy : bool) :
  assign junk m this d n copy =
  release_data_if_needed m this ≫=
    fun m0 => assign junk m0 String_default d n copy.
Proof.
  unfold assign. destruct (release_data_if_needed m this); reflexivity.
Qed.

Lemma assign_fresh_keeps_discipline (m0 m' : Mem) (objs1 : gmap nat String)
    (this : nat) (d : ptr) (n : Z) (copy : bool) (t' : String) :
  heap_ok m0 objs1 -> objs1 !! this = None ->
  Z.of_nat (base.size objs1) + 1 < 2 ^ 32 ->
  assign junk m0 String_default d n copy = Ok (m', t') ->
  heap_ok m' (<[this := t']> objs1) /\
  (forall a o, objs1 !! a = Some o -> own_memory o = true ->
               contents m' o = contents m0 o).
Proof.
  intros Hok Hthis Hbound. unfold assign. simpl. destruct copy.
  - unfold malloc. simpl.
    destruct (memcpy _ _ _ _) as [m2| |] eqn:Hcp; simpl; try discriminate.
    rewrite new_refcount_eq. simpl. intros [= <- <-].
    eapply memcpy_Ok_inv in Hcp as (blk & Hb2 & Hc2);
      [|simpl; apply lookup_insert_eq].
    simpl in Hb2, Hc2. rewrite insert_insert_eq in Hb2.
    destruct (heap_ok_add_block m0 m2 objs1 _ blk Hok (fresh_block m0) Hb2 Hc2)
      as [Hok2 Hcont2].
    split.
    + apply (heap_ok_adopt m2 _ objs1 this (fresh (dom (blocks m0)))
               (fresh (dom (cells m2))) n); auto.
      * rewrite Hb2, lookup_insert_eq. eauto.
      * intros a o Ha Ho Hd.
        exact (heap_ok_fresh_block_unused m0 objs1 _ Hok (fresh_block m0)
                 a o Ha Ho Hd).
      * apply fresh_cell.
    + intros a o Ha Ho. rewrite <- (Hcont2 a o Ha Ho). reflexivity.
  - intros [= <- <-]. split; [|reflexivity].
    apply heap_ok_add_view; assumption.
Qed.

(** X18: reassignment from a pointer keeps the discipline of the class.
    When [assign] succeeds on an object of a store that follows it, with
    either value of [copy], the resulting store follows it again and every
    other owning object still reads the bytes it read before. *)
Theorem assign_keeps_discipline (m m' : Mem) (objs objs' : gmap nat String)
    (this : nat) (t : String) (d : ptr) (n : Z) (copy : bool) :
  heap_ok m objs -> objs !! this = Some t ->
  assign_at m objs this d n copy = Ok (m', objs') ->
  heap_ok m' objs' /\ others_intact m m' objs this.
Proof.
  intros Hok Ht. unfold assign_at. rewrite Ht, assign_release.
  destruct (release_keeps_discipline _ _ _ _ Hok Ht) as (m0 & Hrel & Hok0 & Hc0).
  rewrite Hrel. simpl.
  destruct (assign junk m0 String_default d n copy) as [[m'' t']| |] eqn:Ha;
    simpl; try discriminate.
  intros [= <- <-].
  destruct (assign_fresh_keeps_discipline m0 m'' (delete this objs) this
              d n copy t' Hok0 (lookup_delete_eq _ _)) as [Hok' Hc'];
    [rewrite (size_delete_present _ _ _ Ht); exact (ok_bound _ _ Hok)
    | exact Ha |].
  rewrite insert_delete_eq in Hok'. split; [exact Hok'|].
  intros a o Hne Hao Ho.
  rewrite (Hc' a o), (Hc0 a o) by (try apply lookup_delete_Some; auto).
  reflexivity.
Qed.

(** X19: the constructors keep the discipline of the class.  On a store
    that follows it and has room for one more object, [String(s)] adds an
    owner of a fresh block and never faults, and the empty store follows
    the discipline in any memory. *)
Theorem construct_reserve_keeps_discipline (m : Mem) (objs : gmap nat String)
    (this : nat) (s : Z) :
  heap_ok m objs -> objs !! this = None -> is_uint32 s ->
  Z.of_nat (base.size objs) + 1 < 2 ^ 32 ->
  heap_ok m ∅ /\
  exists m' t',
    construct_reserve m objs this s = Ok (m', <[this := t']> objs) /\
    heap_ok m' (<[this := t']> objs) /\
    size t' = s /\ get_refcount m' t' = Ok 1 /\
    (forall a o, objs !! a = Some o -> own_memory o = true ->
                 contents m' o = contents m o).
Proof.
  intros Hok Hthis Hs Hbound. split.
  { constructor.
    - intros a o Ha. rewrite lookup_empty in Ha. discriminate.
    - intros a o Ha. rewrite lookup_empty in Ha. discriminate.
    - intros a1 o1 a2 o2 Ha. rewrite lookup_empty in Ha. discriminate.
    - rewrite map_size_empty. simpl. lia. }
  unfold construct_reserve, String_reserve, malloc.
  rewrite Z.mul_1_r, wrap32_id by exact Hs. simpl.
  rewrite new_refcount_eq. simpl.
  eexists _, _. split; [reflexivity|].
  set (m1 := mkMem (<[fresh (dom (blocks m)) :=
                       junk (fresh (dom (blocks m))) <$> seq 0 (Z.to_nat s)]>
                      (blocks m)) (cells m)).
  destruct (heap_ok_add_block m m1 objs _ _ Hok (fresh_block m) eq_refl eq_refl)
    as [Hok1 Hcont1].
  split.
  - apply (heap_ok_adopt m1 _ objs this (fresh (dom (blocks m)))
             (fresh (dom (cells m))) s); auto.
    + simpl. rewrite lookup_insert_eq. eauto.
    + exact (heap_ok_fresh_block_unused m objs _ Hok (fresh_block m)).
    + exact (fresh_cell m).
  - split; [reflexivity|]. split.
    + unfold get_refcount, load_cell. simpl. rewrite lookup_insert_eq.
      reflexivity.
    + intros a o Ha Ho. rewrite <- (Hcont1 a o Ha Ho). reflexivity.
Qed.

End StoreMethods.

(** ** Concrete runs, continued *)

Lemma print_spec_witness :
  contents demo_mem demo_ab0 = Ok [x61; x62; x00] /\
  print demo_mem demo_ab0 = Ok [x61; x62].
Proof.
  assert (contents demo_mem demo_ab0 = Ok [x61; x62; x00]) as Hc by reflexivity.
  split; [exact Hc|]. exact (proj1 (print_spec demo_mem demo_ab0 _ Hc)).
Defined.

Lemma operator_index_spec_witness :
  contents demo_mem demo_ab0 = Ok [x61; x62; x00] /\ 0 <= 1 /\
  1 < size demo_ab0 /\
  exists c, [x61; x62; x00] !! Z.to_nat 1 = Some c /\
            operator_index demo_mem demo_ab0 1 = Ok c.
Proof.
  assert (contents demo_mem demo_ab0 = Ok [x61; x62; x00]) as Hc by reflexivity.
  assert (0 <= 1) as H0 by lia.
  assert (1 < size demo_ab0) as H1 by (simpl; lia).
  do 3 (split; [assumption|]).
  exact (proj2 (operator_index_spec demo_mem demo_ab0 _ 1 Hc H0) H1).
Defined.

Lemma lengths_ordered_witness :
  wf_String demo_hello_utf8 /\
  contents demo_mem demo_hello_utf8 = Ok [x68; xc3; xa9; x6c; x6c; x6f] /\
  exists n u,
    strlen demo_mem demo_hello_utf8 = Ok n /\
    strlenUTF8 demo_mem demo_hello_utf8 = Ok u /\ 0 <= u <= n.
Proof.
  assert (wf_String demo_hello_utf8) as Hwf
    by (unfold wf_String, is_uint32; simpl; lia).
  assert (contents demo_mem demo_hello_utf8
          = Ok [x68; xc3; xa9; x6c; x6c; x6f]) as Hc by reflexivity.
  split; [exact Hwf|]. split; [exact Hc|].
  destruct (lengths_ordered demo_mem demo_hello_utf8 _ Hwf Hc)
    as (n & u & Hn & Hu & Hle & _).
  exists n, u. auto.
Defined.

Lemma operator_lt_transitive_witness :
  contents demo_mem demo_ab0 = Ok [x61; x62; x00] /\
  contents demo_mem demo_cd = Ok [x63; x64] /\
  contents demo_mem demo_hello = Ok [x68; x65; x6c; x6c; x6f] /\
  operator_lt true demo_mem demo_ab0 demo_cd = Ok true /\
  operator_lt true demo_mem demo_cd demo_hello = Ok true /\
  operator_lt true demo_mem demo_ab0 demo_hello = Ok true.
Proof.
  assert (contents demo_mem demo_ab0 = Ok [x61; x62; x00]) as Ha by reflexivity.
  assert (contents demo_mem demo_cd = Ok [x63; x64]) as Hb by reflexivity.
  assert (contents demo_mem demo_hello = Ok [x68; x65; x6c; x6c; x6f]) as Hc
    by reflexivity.
  assert (operator_lt true demo_mem demo_ab0 demo_cd = Ok true) as H1
    by reflexivity.
  assert (operator_lt true demo_mem demo_cd demo_hello = Ok true) as H2
    by reflexivity.
  do 5 (split; [assumption|]).
  exact (proj1 (operator_lt_transitive true demo_mem _ _ _ _ _ _ Ha Hb Hc) H1 H2).
Defined.

Lemma compare_empty_witness :
  size String_default = 0 /\ 0 < size demo_cd /\
  compare true demo_mem String_default demo_cd = Ok (-1).
Proof.
  assert (size String_default = 0) as He by reflexivity.
  assert (0 < size demo_cd) as Hs by (simpl; lia).
  split; [exact He|]. split; [exact Hs|].
  exact (proj1 (proj2 (compare_empty true demo_mem String_default demo_cd He) Hs)).
Defined.


Lemma view_does_not_own_witness :
  own_memory demo_ab0 = true /\ refcount demo_ab0 = Some 0%nat /\
  cells demo_mem !! 0%nat = Some 1 /\ data demo_ab0 = Ptr 0 0 /\
  is_Some (blocks demo_mem !! 0%nat) /\ 1 <> 0 /\
  exists v m',
    assign zero_junk demo_mem String_default (Ptr 0 1) 1 false
      = Ok (demo_mem, v) /\
    String_destroy demo_mem demo_ab0 = Ok m' /\
    contents m' v = Fault.
Proof.
  assert (cells demo_mem !! 0%nat = Some 1) as Hv by reflexivity.
  assert (is_Some (blocks demo_mem !! 0%nat)) as Hb by (eexists; reflexivity).
  assert (1 <> 0) as Hn by lia.
  split; [reflexivity|]. split; [reflexivity|]. split; [exact Hv|].
  split; [reflexivity|]. split; [exact Hb|]. split; [exact Hn|].
  destruct (view_does_not_own zero_junk demo_mem demo_ab0 0%nat 0%nat 1 1
              eq_refl eq_refl Hv eq_refl Hb Hn)
    as (v & m' & Ha & _ & _ & _ & _ & _ & _ & Hd & _ & Hc).
  exists v, m'. auto.
Defined.

Lemma reserve_then_destroy_witness :
  is_uint32 3 /\
  exists m1 str m2,
    String_reserve zero_junk demo_mem 3 = Ok (m1, str) /\
    String_destroy m1 str = Ok m2 /\
    blocks m2 = blocks demo_mem.
Proof.
  assert (is_uint32 3) as Hs by (unfold is_uint32; lia).
  split; [exact Hs|].
  destruct (reserve_then_destroy zero_junk demo_mem 3 Hs)
    as (m1 & str & b & c & bs & m2 & Hr & _ & _ & _ & _ & _ & _ & _ & _ & _
        & _ & Hd & Hb & _).
  exists m1, str, m2. auto.
Defined.


Lemma substr_of_substr_witness :
  (own_memory String_default = false \/ refcount String_default = None) /\
  wf_String demo_hello /\
  1 < size demo_hello /\ 1 + 3 < size demo_hello /\ 1 < 3 /\ 1 + 1 < 3 /\
  exists v1 v2,
    substr zero_junk String_default demo_mem demo_hello 1 3 false
      = Ok (demo_mem, v1) /\
    substr zero_junk String_default demo_mem v1 1 1 false = Ok (demo_mem, v2) /\
    substr zero_junk String_default demo_mem demo_hello (1 + 1) 1 false
      = Ok (demo_mem, v2).
Proof.
  assert (own_memory String_default = false \/ refcount String_default = None)
    as Hraw by (left; reflexivity).
  assert (wf_String demo_hello) as Hwf
    by (unfold wf_String, is_uint32; simpl; lia).
  assert (1 < size demo_hello) as H5 by (simpl; lia).
  assert (1 + 3 < size demo_hello) as H6 by (simpl; lia).
  assert (1 < 3) as H7 by lia. assert (1 + 1 < 3) as H8 by lia.
  do 6 (split; [assumption|]).
  apply (substr_of_substr zero_junk String_default demo_mem demo_hello 1 3 1 1
           Hraw Hwf); lia || assumption.
Defined.

Lemma demo_wf :
  wf_String demo_ab0 /\ wf_String demo_cd /\ wf_String demo_hello.
Proof. unfold wf_String, is_uint32. simpl. lia. Defined.

Lemma concat_lengths_additive_witness :
  exists m' this',
    wf_String demo_ab0 /\ wf_String demo_cd /\
    contents demo_mem demo_ab0 = Ok [x61; x62; x00] /\
    contents demo_mem demo_cd = Ok [x63; x64] /\
    operator_plus_eq zero_junk demo_mem demo_ab0 demo_cd = Ok (m', this') /\
    exists n1 n2,
      strlen demo_mem demo_ab0 = Ok n1 /\ strlen demo_mem demo_cd = Ok n2 /\
      strlen m' this' = Ok (n1 + n2).
Proof.
  destruct demo_wf as (Ht & Hs & _).
  assert (contents demo_mem demo_ab0 = Ok [x61; x62; x00]) as Ha by reflexivity.
  assert (contents demo_mem demo_cd = Ok [x63; x64]) as Hb by reflexivity.
  destruct (operator_plus_eq zero_junk demo_mem demo_ab0 demo_cd)
    as [[m' this']| |] eqn:Hpe; [|vm_compute in Hpe; discriminate..].
  exists m', this'. do 4 (split; [assumption|]). split; [first [exact Hpe | reflexivity]|].
  destruct (concat_lengths_additive zero_junk demo_mem m' demo_ab0 demo_cd
              this' _ _ Ht Hs Ha Hb Hpe)
    as (n1 & n2 & u1 & u2 & H1 & H2 & H3 & _).
  exists n1, n2. auto.
Defined.

Lemma demo_holds_reference :
  holds_reference demo_mem demo_ab0 /\ holds_reference demo_mem demo_cd.
Proof.
  split; [|exact I]. split; [reflexivity|].
  exists 1. split; [reflexivity|]. unfold is_uint32. lia.
Defined.

Lemma operator_plus_frame_witness :
  exists m' r,
    wf_String demo_ab0 /\ wf_String demo_cd /\
    holds_reference demo_mem demo_ab0 /\
    operator_plus zero_junk demo_mem demo_ab0 demo_cd = Ok (m', r) /\
    contents m' demo_ab0 = Ok [x61; x62; x00] /\
    get_refcount m' demo_ab0 = Ok 1.
Proof.
  destruct demo_wf as (Ht & Hs & _).
  destruct demo_holds_reference as [Href _].
  destruct (operator_plus zero_junk demo_mem demo_ab0 demo_cd)
    as [[m' r]| |] eqn:Hp; [|vm_compute in Hp; discriminate..].
  exists m', r. do 3 (split; [assumption|]). split; [first [exact Hp | reflexivity]|].
  destruct (operator_plus_frame zero_junk demo_mem m' demo_ab0 demo_cd r
              Ht Hs Href Hp) as (_ & _ & _ & Hk1 & Hk2).
  split; [apply Hk1 | apply Hk2]; reflexivity.
Defined.

Lemma operator_plus_assoc_witness :
  exists m1 ab m2 abc m1' bc m2' abc',
    operator_plus zero_junk demo_mem demo_ab0 demo_cd = Ok (m1, ab) /\
    operator_plus zero_junk m1 ab demo_hello = Ok (m2, abc) /\
    operator_plus zero_junk demo_mem demo_cd demo_hello = Ok (m1', bc) /\
    operator_plus zero_junk m1' demo_ab0 bc = Ok (m2', abc') /\
    contents m2 abc = Ok [x61; x62; x63; x64; x68; x65; x6c; x6c; x6f] /\
    contents m2' abc' = Ok [x61; x62; x63; x64; x68; x65; x6c; x6c; x6f].
Proof.
  destruct demo_wf as (Ha & Hb & Hc).
  destruct demo_holds_reference as [Hra Hrb].
  assert (contents demo_mem demo_ab0 = Ok [x61; x62; x00]) as Hx by reflexivity.
  assert (contents demo_mem demo_cd = Ok [x63; x64]) as Hy by reflexivity.
  assert (contents demo_mem demo_hello = Ok [x68; x65; x6c; x6c; x6f]) as Hz
    by reflexivity.
  destruct (operator_plus zero_junk demo_mem demo_ab0 demo_cd)
    as [[m1 ab]| |] eqn:H1; [|vm_compute in H1; discriminate..].
  destruct (operator_plus zero_junk m1 ab demo_hello)
    as [[m2 abc]| |] eqn:H2;
    [|vm_compute in H1; injection H1 as <- <-;
      vm_compute in H2; discriminate..].
  destruct (operator_plus zero_junk demo_mem demo_cd demo_hello)
    as [[m1' bc]| |] eqn:H3; [|vm_compute in H3; discriminate..].
  destruct (operator_plus zero_junk m1' demo_ab0 bc)
    as [[m2' abc']| |] eqn:H4;
    [|vm_compute in H3; injection H3 as <- <-;
      vm_compute in H4; discriminate..].
  exists m1, ab, m2, abc, m1', bc, m2', abc'.
  do 4 (split; [first [assumption | reflexivity]|]).
  exact (operator_plus_assoc zero_junk demo_mem m1 m2 m1' m2' demo_ab0 demo_cd
           demo_hello ab abc bc abc' _ _ _ Ha Hb Hc Hx Hy Hz Hra Hrb H1 H2 H3 H4).
Defined.

(** A store of two objects: the owner of block 0 at address 0 and a view of
    block 1 at address 1. *)
Definition demo_objs : gmap nat String :=
  <[0%nat := demo_ab0]> (<[1%nat := demo_cd]> ∅).

Lemma demo_objs_inv (a : nat) (o : String) :
  demo_objs !! a = Some o ->
  (a = 0%nat /\ o = demo_ab0) \/ (a = 1%nat /\ o = demo_cd).
Proof.
  unfold demo_objs. intros H.
  apply lookup_insert_Some in H as [[<- <-]|[_ H]]; [auto|].
  apply lookup_insert_Some in H as [[<- <-]|[_ H]]; [auto|].
  rewrite lookup_empty in H. discriminate.
Defined.

Lemma demo_heap_ok : heap_ok demo_mem demo_objs.
Proof.
  constructor.
  - intros a o Ha Ho.
    destruct (demo_objs_inv a o Ha) as [[_ ->]|[_ ->]];
      [discriminate | reflexivity].
  - intros a o Ha Ho.
    destruct (demo_objs_inv a o Ha) as [[_ ->]|[_ ->]]; [|discriminate].
    exists 0%nat, 0%nat. split; [reflexivity|]. split; [reflexivity|].
    split; [eexists; reflexivity | vm_compute; reflexivity].
  - intros a1 o1 a2 o2 H1 H2 Ho1 Ho2.
    destruct (demo_objs_inv a1 o1 H1) as [[_ ->]|[_ ->]]; [|discriminate].
    destruct (demo_objs_inv a2 o2 H2) as [[_ ->]|[_ ->]]; [|discriminate].
    split; reflexivity.
  - vm_compute. reflexivity.
Defined.

Lemma demo_objs_room : Z.of_nat (base.size demo_objs) + 1 < 2 ^ 32.
Proof. vm_compute. reflexivity. Defined.

Lemma destroy_keeps_discipline_witness :
  heap_ok demo_mem demo_objs /\ demo_objs !! 0%nat = Some demo_ab0 /\
  exists m',
    destroy demo_mem demo_objs 0%nat = Ok (m', delete 0%nat demo_objs) /\
    heap_ok m' (delete 0%nat demo_objs).
Proof.
  assert (demo_objs !! 0%nat = Some demo_ab0) as Ht by reflexivity.
  split; [exact demo_heap_ok|]. split; [exact Ht|].
  destruct (destroy_keeps_discipline demo_mem demo_objs 0%nat demo_ab0
              demo_heap_ok Ht) as (m' & Hd & Hok & _).
  exists m'. auto.
Defined.

Lemma construct_copy_keeps_discipline_witness :
  heap_ok demo_mem demo_objs /\ demo_objs !! 2%nat = None /\
  demo_objs !! 0%nat = Some demo_ab0 /\
  Z.of_nat (base.size demo_objs) + 1 < 2 ^ 32 /\
  exists m',
    construct_copy demo_mem demo_objs 2%nat 0%nat
      = Ok (m', <[2%nat := demo_ab0]> demo_objs) /\
    heap_ok m' (<[2%nat := demo_ab0]> demo_objs) /\
    get_refcount m' demo_ab0 = Ok 2.
Proof.
  assert (demo_objs !! 2%nat = None) as Hthis by reflexivity.
  assert (demo_objs !! 0%nat = Some demo_ab0) as Hobj by reflexivity.
  split; [exact demo_heap_ok|]. split; [exact Hthis|]. split; [exact Hobj|].
  split; [exact demo_objs_room|].
  destruct (construct_copy_keeps_discipline demo_mem demo_objs 2%nat 0%nat
              demo_ab0 demo_heap_ok Hthis Hobj demo_objs_room)
    as (m' & Hc & Hok & _ & Hcnt).
  exists m'. split; [exact Hc|]. split; [exact Hok|].
  destruct (Hcnt 0%nat eq_refl) as [_ H2].
  unfold get_refcount, load_cell. simpl. rewrite H2. reflexivity.
Defined.

Lemma operator_assign_keeps_discipline_witness :
  heap_ok demo_mem demo_objs /\ demo_objs !! 1%nat = Some demo_cd /\
  demo_objs !! 0%nat = Some demo_ab0 /\
  exists m',
    operator_assign demo_mem demo_objs 1%nat 0%nat
      = Ok (m', <[1%nat := demo_ab0]> demo_objs) /\
    heap_ok m' (<[1%nat := demo_ab0]> demo_objs).
Proof.
  assert (demo_objs !! 1%nat = Some demo_cd) as Ht by reflexivity.
  assert (demo_objs !! 0%nat = Some demo_ab0) as Ho by reflexivity.
  split; [exact demo_heap_ok|]. split; [exact Ht|]. split; [exact Ho|].
  destruct (operator_assign_keeps_discipline demo_mem demo_objs 1%nat 0%nat
              demo_cd demo_ab0 demo_heap_ok Ht Ho) as (m' & Ha & Hok & _).
  exists m'. auto.
Defined.

Lemma plus_eq_keeps_discipline_witness :
  exists m' objs',
    heap_ok demo_mem demo_objs /\ demo_objs !! 0%nat = Some demo_ab0 /\
    demo_objs !! 1%nat = Some demo_cd /\
    wf_String demo_ab0 /\ wf_String demo_cd /\
    plus_eq_at zero_junk demo_mem demo_objs 0%nat 1%nat = Ok (m', objs') /\
    heap_ok m' objs'.
Proof.
  destruct demo_wf as (Hwt & Hws & _).
  assert (demo_objs !! 0%nat = Some demo_ab0) as Ht by reflexivity.
  assert (demo_objs !! 1%nat = Some demo_cd) as Hs by reflexivity.
  destruct (plus_eq_at zero_junk demo_mem demo_objs 0%nat 1%nat)
    as [[m' objs']| |] eqn:Hpe; [|vm_compute in Hpe; discriminate..].
  exists m', objs'. split; [exact demo_heap_ok|].
  do 4 (split; [assumption|]). split; [first [exact Hpe | reflexivity]|].
  exact (proj1 (plus_eq_keeps_discipline zero_junk demo_mem m' demo_objs objs'
                  0%nat 1%nat demo_ab0 demo_cd demo_heap_ok Ht Hs Hwt Hws Hpe)).
Defined.

Lemma assign_keeps_discipline_witness :
  exists m' objs',
    heap_ok demo_mem demo_objs /\ demo_objs !! 0%nat = Some demo_ab0 /\
    assign_at zero_junk demo_mem demo_objs 0%nat (Ptr 1 0) 2 true
      = Ok (m', objs') /\
    heap_ok m' objs'.
Proof.
  assert (demo_objs !! 0%nat = Some demo_ab0) as Ht by reflexivity.
  destruct (assign_at zero_junk demo_mem demo_objs 0%nat (Ptr 1 0) 2 true)
    as [[m' objs']| |] eqn:Ha; [|vm_compute in Ha; discriminate..].
  exists m', objs'. split; [exact demo_heap_ok|]. split; [exact Ht|].
  split; [first [exact Ha | reflexivity]|].
  exact (proj1 (assign_keeps_discipline zero_junk demo_mem m' demo_objs objs'
                  0%nat demo_ab0 (Ptr 1 0) 2 true demo_heap_ok Ht Ha)).
Defined.

Lemma construct_reserve_keeps_discipline_witness :
  heap_ok demo_mem demo_objs /\ demo_objs !! 2%nat = None /\ is_uint32 4 /\
  Z.of_nat (base.size demo_objs) + 1 < 2 ^ 32 /\
  exists m' t',
    construct_reserve zero_junk demo_mem demo_objs 2%nat 4
      = Ok (m', <[2%nat := t']> demo_objs) /\
    heap_ok m' (<[2%nat := t']> demo_objs).
Proof.
  assert (demo_objs !! 2%nat = None) as Hthis by reflexivity.
  assert (is_uint32 4) as Hs by (unfold is_uint32; lia).
  split; [exact demo_heap_ok|]. split; [exact Hthis|]. split; [exact Hs|].
  split; [exact demo_objs_room|].
  destruct (construct_reserve_keeps_discipline zero_junk demo_mem demo_objs
              2%nat 4 demo_heap_ok Hthis Hs demo_objs_room)
    as (_ & m' & t' & Hc & Hok & _).
  exists m', t'. auto.
Defined.

(** ** The order of [compare] and the value of the bytes *)

Lemma char_val_is_byte (cs : bool) (c : byte) :
  cs = false \/ uint8_of c < 0x80 -> char_val cs c = uint8_of c.
Proof.
  intros [->|Hc]; [reflexivity|]. apply char_val_ascii. exact Hc.
Qed.

Lemma first_diff_orders_agree (cs : bool) (xs ys : list byte) :
  cs = false \/
  (Forall (fun c => uint8_of c < 0x80) xs /\
   Forall (fun c => uint8_of c < 0x80) ys) ->
  (first_diff_char_lt cs xs ys <-> first_diff_byte_lt xs ys).
Proof.
  intros Hcond.
  assert (forall pre x y tx ty,
            xs = pre ++ x :: tx -> ys = pre ++ y :: ty ->
            char_val cs x = uint8_of x /\ char_val cs y = uint8_of y) as Hval.
  { intros pre x y tx ty -> ->.
    destruct Hcond as [->|[Hx Hy]]; [split; reflexivity|].
    apply Forall_app in Hx as [_ Hx]. apply Forall_cons in Hx as [Hx _].
    apply Forall_app in Hy as [_ Hy]. apply Forall_cons in Hy as [Hy _].
    split; apply char_val_ascii; assumption. }
  split; intros (pre & x & y & tx & ty & Hxs & Hys & Hlt);
    destruct (Hval pre x y tx ty Hxs Hys) as [Hvx Hvy];
    exists pre, x, y, tx, ty; (split; [exact Hxs|]); (split; [exact Hys|]); lia.
Qed.

(** Where plain [char] is unsigned, and on any build for contents made of
    bytes below 0x80, [compare] orders the bytes by their value: -1 exactly
    when the left contents are a strict prefix of the right ones or hold the
    smaller byte at the first difference, 1 in the symmetric cases, 0 exactly
    for identical contents. *)
Lemma compare_byte_order (cs : bool) (m : Mem) (a b : String)
    (xs ys : list byte) :
  cs = false \/
  (Forall (fun c => uint8_of c < 0x80) xs /\
   Forall (fun c => uint8_of c < 0x80) ys) ->
  contents m a = Ok xs -> contents m b = Ok ys ->
  exists r : Z,
    compare cs m a b = Ok r /\
    (r = 1 \/ r = 0 \/ r = -1) /\
    (r = 0 <-> xs = ys) /\
    (r = -1 <-> strict_prefix xs ys \/ first_diff_byte_lt xs ys) /\
    (r = 1 <-> strict_prefix ys xs \/ first_diff_byte_lt ys xs).
Proof.
  intros Hcond Ha Hb.
  destruct (compare_char_order cs m a b xs ys Ha Hb)
    as (r & Hr & Hrange & Heq & Hlt & Hgt & _).
  exists r. do 3 (split; [assumption|]).
  rewrite <- (first_diff_orders_agree cs xs ys Hcond).
  rewrite <- (first_diff_orders_agree cs ys xs) by tauto.
  split; assumption.
Qed.

(** C5 (the code at the failing input): where plain [char] is signed,
    [compare] puts the string 0xC3 0xA9 (the UTF-8 encoding of e with an
    acute accent) below the string "h", and [<] holds between them,
    although the first differing byte of "h", 0x68, is the smaller one and
    the claim asks for 1; where plain [char] is unsigned the result is 1. *)
Theorem compare_signed_char_order :
  contents demo_mem demo_eacute = Ok [xc3; xa9] /\
  contents demo_mem demo_h = Ok [x68] /\
  uint8_of x68 = 104 /\ uint8_of xc3 = 195 /\
  first_diff_byte_lt [x68] [xc3; xa9] /\
  compare true demo_mem demo_eacute demo_h = Ok (-1) /\
  operator_lt true demo_mem demo_eacute demo_h = Ok true /\
  operator_gt true demo_mem demo_eacute demo_h = Ok false /\
  compare true demo_mem demo_h demo_eacute = Ok 1 /\
  compare false demo_mem demo_eacute demo_h = Ok 1 /\
  compare false demo_mem demo_h demo_eacute = Ok (-1).
Proof.
  do 4 (split; [reflexivity|]). split; [|repeat split; reflexivity].
  exists [], x68, xc3, [], [xa9]. repeat split; reflexivity.
Qed.

(** ** Copy assignment on a disciplined store *)

Lemma incr_refcount_counted (m : Mem) (c : nat) (v : Z) :
  cells m !! c = Some v ->
  incr_refcount m (Some c)
  = Ok (mkMem (blocks m) (<[c := wrap32 (v + 1)]> (cells m))).
Proof.
  intros Hv. unfold incr_refcount, load_cell, store_cell.
  rewrite Hv. simpl. rewrite ?Hv. reflexivity.
Qed.

Lemma heap_ok_counted (m : Mem) (objs : gmap nat String) (a c : nat)
    (o : String) :
  heap_ok m objs -> objs !! a = Some o -> refcount o = Some c ->
  own_memory o = true /\
  exists b,
    data o = Ptr b 0 /\ is_Some (blocks m !! b) /\
    cells m !! c = Some (Z.of_nat (refs objs c)) /\
    (0 < refs objs c)%nat /\ Z.of_nat (refs objs c) < 2 ^ 32.
Proof.
  intros Hok Ha Hr.
  assert (own_memory o = true) as Hown.
  { destruct (own_memory o) eqn:Ho; [reflexivity|].
    rewrite (ok_views _ _ Hok a o Ha Ho) in Hr. discriminate. }
  split; [exact Hown|].
  destruct (ok_owner _ _ Hok a o Ha Hown) as (c' & b & Hr' & Hd & Hl & Hc).
  rewrite Hr in Hr'. injection Hr' as <-.
  exists b. do 3 (split; [assumption|]).
  split; [exact (refs_pos _ _ _ _ Ha Hr)|].
  pose proof (refs_le_size objs c). pose proof (ok_bound _ _ Hok). lia.
Qed.

(** On a disciplined store the memory that [operator =] leaves is the one
    reached by incrementing the counter of the source and then releasing
    the reference the target held. *)
Lemma acquire_then_release (m m' : Mem) (objs objs' : gmap nat String)
    (this obj : nat) (t o : String) :
  heap_ok m objs -> objs !! this = Some t -> objs !! obj = Some o ->
  operator_assign m objs this obj = Ok (m', objs') ->
  exists m1,
    incr_refcount m (refcount o) = Ok m1 /\
    release_data_if_needed m1 t = Ok m'.
Proof.
  intros Hok Ht Ho. unfold operator_assign. rewrite Ht, Ho.
  destruct (decide (this = obj)) as [->|Hne].
  - rewrite bool_decide_eq_false_2 by auto. intros [= <- <-].
    assert (t = o) as -> by congruence.
    destruct (refcount o) as [c|] eqn:Hr.
    + destruct (heap_ok_counted _ _ _ _ _ Hok Ho Hr)
        as (Hown & b & _ & _ & Hc & Hpos & Hlt).
      destruct (copy_then_destroy m o c _ Hown Hr Hc)
        as (m1 & Hcopy & _ & _ & Hd); [unfold is_uint32; lia | lia |].
      exists m1. apply String_copy_incr in Hcopy. rewrite Hr in Hcopy.
      split; [exact Hcopy | exact Hd].
    + exists m. split; [reflexivity|]. apply release_unowned. auto.
  - rewrite bool_decide_eq_true_2 by exact Hne.
    destruct (release_data_if_needed m t) as [ma| |] eqn:Hrel;
      simpl; try discriminate.
    destruct (incr_refcount ma (refcount o)) as [mb| |] eqn:Hinc;
      simpl; try discriminate.
    intros [= <- <-].
    destruct (refcount o) as [co|] eqn:Hro.
    2:{ simpl in Hinc. injection Hinc as <-. exists m.
        split; [reflexivity | exact Hrel]. }
    destruct (refcount t) as [ct|] eqn:Hrt.
    2:{ rewrite release_unowned in Hrel by auto. injection Hrel as <-.
        exists mb. split; [exact Hinc|]. apply release_unowned. auto. }
    destruct (heap_ok_counted _ _ _ _ _ Hok Ht Hrt)
      as (Hot & bt & Hdt & [blk Hbt] & Hct & Hpt & Hlt).
    destruct (heap_ok_counted _ _ _ _ _ Hok Ho Hro)
      as (Hoo & bo & _ & _ & Hco & Hpo & Hlo).
    rewrite (release_owned m t ct _ Hot Hrt Hct) in Hrel.
    exists (mkMem (blocks m)
                  (<[co := wrap32 (Z.of_nat (refs objs co) + 1)]> (cells m))).
    split; [apply incr_refcount_counted; exact Hco|].
    destruct (decide (ct = co)) as [->|Hcne].
    + assert (2 <= refs objs co)%nat as H2.
      { rewrite (refs_delete_counted objs this co t Ht Hrt).
        assert (0 < refs (delete this objs) co)%nat; [|lia].
        apply (refs_pos _ obj co o); [|exact Hro].
        apply lookup_delete_Some. auto. }
      rewrite wrap32_id in Hrel by (unfold is_uint32; lia).
      destruct (Z.eqb_spec (Z.of_nat (refs objs co) - 1) 0); [lia|].
      injection Hrel as <-.
      rewrite (incr_refcount_counted _ co (Z.of_nat (refs objs co) - 1)) in Hinc
        by (simpl; apply lookup_insert_eq).
      injection Hinc as <-. simpl.
      rewrite (release_owned _ t co (wrap32 (Z.of_nat (refs objs co) + 1))
                 Hot Hrt) by (simpl; apply lookup_insert_eq).
      rewrite wrap32_incr_decr by (unfold is_uint32; lia).
      destruct (Z.eqb_spec (Z.of_nat (refs objs co)) 0); [lia|].
      simpl. rewrite !insert_insert_eq.
      replace (Z.of_nat (refs objs co) - 1 + 1) with (Z.of_nat (refs objs co))
        by lia.
      rewrite wrap32_id by (unfold is_uint32; lia). reflexivity.
    + rewrite (release_owned _ t ct (Z.of_nat (refs objs ct)) Hot Hrt)
        by (simpl; rewrite lookup_insert_ne by congruence; exact Hct).
      destruct (Z.eqb_spec (wrap32 (Z.of_nat (refs objs ct) - 1)) 0).
      * unfold free in Hrel |- *. rewrite Hdt in Hrel |- *. simpl in Hrel |- *.
        rewrite Hbt in Hrel |- *. injection Hrel as <-.
        rewrite (incr_refcount_counted _ co (Z.of_nat (refs objs co))) in Hinc
          by (simpl; rewrite lookup_insert_ne by congruence; exact Hco).
        injection Hinc as <-. simpl.
        rewrite (insert_insert_ne _ ct co) by exact Hcne. reflexivity.
      * injection Hrel as <-.
        rewrite (incr_refcount_counted _ co (Z.of_nat (refs objs co))) in Hinc
          by (simpl; rewrite lookup_insert_ne by congruence; exact Hco).
        injection Hinc as <-. simpl.
        rewrite (insert_insert_ne _ ct co) by exact Hcne. reflexivity.
Qed.

(** C2: copy-construction and copy-assignment alias the source's [data],
    [size], [own_memory] and [refcount] and increment the shared counter
    when it is present; destruction and reassignment of an owning instance
    decrement the counter, and the data is freed exactly when the counter
    reaches zero.  For copy-assignment, between any two objects of a
    disciplined store (the target may be the source), the memory left is
    the one reached by incrementing the counter of the source and then
    releasing the reference the target held, the target holds the members
    of the source, and every counter is again the number of its sharers;
    between different objects the code releases first and increments
    after, and on one object it does nothing.  Hence copying [a] into [b]
    and then destroying [a] leaves the bytes of [b] readable and unchanged,
    with the counter back at 1. *)
Theorem refcount_discipline (junk : nat -> nat -> byte) (m : Mem) :
  (forall obj m1 b,
     String_copy m obj = Ok (m1, b) ->
     size b = size obj /\ data b = data obj /\
     own_memory b = own_memory obj /\ refcount b = refcount obj /\
     blocks m1 = blocks m /\
     (refcount obj = None -> m1 = m) /\
     (forall c v, refcount obj = Some c -> cells m !! c = Some v ->
                  cells m1 = <[c := wrap32 (v + 1)]> (cells m))) /\
  (forall objs this obj t o,
     heap_ok m objs -> objs !! this = Some t -> objs !! obj = Some o ->
     exists m1 m',
       incr_refcount m (refcount o) = Ok m1 /\
       blocks m1 = blocks m /\
       (refcount o = None -> m1 = m) /\
       (forall c v, refcount o = Some c -> cells m !! c = Some v ->
                    cells m1 = <[c := wrap32 (v + 1)]> (cells m)) /\
       release_data_if_needed m1 t = Ok m' /\
       operator_assign m objs this obj = Ok (m', <[this := o]> objs) /\
       <[this := o]> objs !! this = Some o /\
       <[this := o]> objs !! obj = Some o /\
       heap_ok m' (<[this := o]> objs)) /\
  (forall objs this obj t o m' objs',
     this <> obj -> objs !! this = Some t -> objs !! obj = Some o ->
     operator_assign m objs this obj = Ok (m', objs') ->
     objs' !! this = Some o /\ objs' !! obj = Some o /\
     exists m1,
       release_data_if_needed m t = Ok m1 /\
       blocks m' = blocks m1 /\
       (refcount o = None -> m' = m1) /\
       (forall c v, refcount o = Some c -> cells m1 !! c = Some v ->
                    cells m' = <[c := wrap32 (v + 1)]> (cells m1))) /\
  (forall objs this t,
     objs !! this = Some t ->
     operator_assign m objs this this = Ok (m, objs)) /\
  (forall s, String_destroy m s = release_data_if_needed m s) /\
  (forall this d n copy,
     assign junk m this d n copy =
     release_data_if_needed m this ≫=
       fun m0 => assign junk m0 String_default d n copy) /\
  (forall s c v m',
     own_memory s = true -> refcount s = Some c -> cells m !! c = Some v ->
     release_data_if_needed m s = Ok m' ->
     cells m' = <[c := wrap32 (v - 1)]> (cells m) /\
     (wrap32 (v - 1) <> 0 -> blocks m' = blocks m) /\
     (wrap32 (v - 1) = 0 ->
      free (mkMem (blocks m) (cells m')) (data s) = Ok m' /\
      forall b, data s = Ptr b 0 -> blocks m' = delete b (blocks m))) /\
  (forall s,
     own_memory s = false \/ refcount s = None ->
     release_data_if_needed m s = Ok m) /\
  (forall a c bs,
     own_memory a = true -> refcount a = Some c -> cells m !! c = Some 1 ->
     contents m a = Ok bs ->
     exists m1 b,
       String_copy m a = Ok (m1, b) /\
       get_refcount m1 b = Ok 2 /\
       String_destroy m1 a = Ok m /\
       contents m b = Ok bs /\
       get_refcount m b = Ok 1).
Proof.
  split.
  { intros obj m1 b Hcopy.
    destruct (String_copy_Ok_inv _ _ _ _ Hcopy) as (-> & Hb & _).
    do 5 (split; [first [reflexivity | exact Hb]|]). split.
    - intros Hr. rewrite (String_copy_uncounted _ _ Hr) in Hcopy. congruence.
    - intros c v Hr Hv. rewrite (String_copy_counted _ _ _ _ Hr Hv) in Hcopy.
      injection Hcopy as <-. reflexivity. }
  split.
  { intros objs this obj t o Hok Ht Ho.
    destruct (operator_assign_disciplined _ _ _ _ _ _ Hok Ht Ho)
      as (m' & Hop & Hok' & _).
    destruct (acquire_then_release _ _ _ _ _ _ _ _ Hok Ht Ho Hop)
      as (m1 & Hinc & Hrel).
    destruct (incr_refcount_Ok_inv _ _ _ Hinc) as (Hb & Hnone & Hsome).
    exists m1, m'. do 6 (split; [assumption|]).
    split; [apply lookup_insert_eq|]. split; [|exact Hok'].
    destruct (decide (this = obj)) as [->|Hne];
      [apply lookup_insert_eq|].
    rewrite lookup_insert_ne by exact Hne. exact Ho. }
  split.
  { intros objs this obj t o m' objs' Hne Ht Ho.
    unfold operator_assign. rewrite Ht, Ho.
    rewrite bool_decide_eq_true_2 by exact Hne.
    destruct (release_data_if_needed m t) as [m1| |]; simpl; try discriminate.
    destruct (incr_refcount m1 (refcount o)) as [m2| |] eqn:Hincr;
      simpl; try discriminate.
    intros [= <- <-]. rewrite String_eta, lookup_insert_eq.
    rewrite lookup_insert_ne by exact Hne.
    split; [reflexivity|]. split; [exact Ho|].
    exists m1. split; [reflexivity|].
    exact (incr_refcount_Ok_inv _ _ _ Hincr). }
  split.
  { intros objs this t Ht. unfold operator_assign. rewrite Ht.
    rewrite bool_decide_eq_false_2 by auto. reflexivity. }
  split; [reflexivity|].
  split.
  { intros this d n copy. unfold assign.
    destruct (release_data_if_needed m this); reflexivity. }
  split.
  { intros s c v m' Ho Hr Hv. rewrite (release_owned _ _ _ _ Ho Hr Hv).
    destruct (Z.eqb_spec (wrap32 (v - 1)) 0) as [Hz|Hnz]; intros Hrel.
    - pose proof (free_Ok_inv _ _ _ Hrel) as [Hc Hcase]. simpl in Hc, Hcase.
      split; [exact Hc|]. split; [contradiction|]. intros _.
      split; [rewrite Hc; exact Hrel|].
      intros b Hd. destruct Hcase as [[Hp _]|(b' & Hp & _ & Hb)]; congruence.
    - injection Hrel as <-. simpl. split; [reflexivity|].
      split; [reflexivity | contradiction]. }
  split; [intros s Hs; apply release_unowned; exact Hs|].
  intros a c bs Ho Hr Hv Hbs.
  destruct (copy_then_destroy m a c 1 Ho Hr Hv) as (m1 & Hcopy & _ & Hc1 & Hd);
    [unfold is_uint32; lia | lia |].
  exists m1, a. unfold get_refcount, load_cell. rewrite Hr, Hc1, Hv.
  auto.
Qed.

Lemma refcount_discipline_witness :
  (heap_ok demo_mem demo_objs /\
   demo_objs !! 1%nat = Some demo_cd /\
   demo_objs !! 0%nat = Some demo_ab0 /\
   exists m1 m',
     incr_refcount demo_mem (refcount demo_ab0) = Ok m1 /\
     release_data_if_needed m1 demo_cd = Ok m' /\
     operator_assign demo_mem demo_objs 1%nat 0%nat
     = Ok (m', <[1%nat := demo_ab0]> demo_objs) /\
     heap_ok m' (<[1%nat := demo_ab0]> demo_objs)) /\
  (exists m1 m',
     incr_refcount demo_mem (refcount demo_ab0) = Ok m1 /\
     release_data_if_needed m1 demo_ab0 = Ok m' /\
     operator_assign demo_mem demo_objs 0%nat 0%nat
     = Ok (m', <[0%nat := demo_ab0]> demo_objs) /\
     heap_ok m' (<[0%nat := demo_ab0]> demo_objs)) /\
  (own_memory demo_ab0 = true /\ refcount demo_ab0 = Some 0%nat /\
   cells demo_mem !! 0%nat = Some 1 /\
   contents demo_mem demo_ab0 = Ok [x61; x62; x00] /\
   exists m1 b,
     String_copy demo_mem demo_ab0 = Ok (m1, b) /\
     get_refcount m1 b = Ok 2 /\
     String_destroy m1 demo_ab0 = Ok demo_mem /\
     contents demo_mem b = Ok [x61; x62; x00] /\
     get_refcount demo_mem b = Ok 1).
Proof.
  assert (demo_objs !! 1%nat = Some demo_cd) as H1 by reflexivity.
  assert (demo_objs !! 0%nat = Some demo_ab0) as H0 by reflexivity.
  assert (cells demo_mem !! 0%nat = Some 1) as Hv by reflexivity.
  assert (contents demo_mem demo_ab0 = Ok [x61; x62; x00]) as Hc by reflexivity.
  destruct (refcount_discipline zero_junk demo_mem)
    as (_ & Hassign & _ & _ & _ & _ & _ & _ & Hence).
  split; [|split].
  - split; [exact demo_heap_ok|]. split; [exact H1|]. split; [exact H0|].
    destruct (Hassign demo_objs 1%nat 0%nat _ _ demo_heap_ok H1 H0)
      as (m1 & m' & Hi & _ & _ & _ & Hr & Hop & _ & _ & Hok).
    exists m1, m'. auto.
  - destruct (Hassign demo_objs 0%nat 0%nat _ _ demo_heap_ok H0 H0)
      as (m1 & m' & Hi & _ & _ & _ & Hr & Hop & _ & _ & Hok).
    exists m1, m'. auto.
  - split; [reflexivity|]. split; [reflexivity|].
    split; [exact Hv|]. split; [exact Hc|].
    exact (Hence demo_ab0 0%nat _ eq_refl eq_refl Hv Hc).
Defined.

End Eos.
